(** * browser-utils: rectangle measurement, style application and popup placement

    A shallow embedding of [src/element.ts] ([scaleRect],
    [scaledBoundingClientRect], [scaledClientRects], [offsets]) and of the
    style/popup module ([style], [popup], [popTo], [restore], [appendTo]),
    followed by the properties the specification states about them and by
    further properties read off the code.

    Modelling conventions.
    - A JavaScript number that holds a measurement is a rational ([Q]);
      [Math.round] therefore returns an integer ([Z]).  Infinities do not
      occur as long as the scale divisor is not zero, which every statement
      about scaling assumes.  [scaleRect] and [offsets] compute with exact
      quotients and differences; [scaleRect_on] and [offsets_on] are the
      same functions with the machine's division and subtraction left open,
      for statements that must not depend on how a double is rounded.
    - [popup] imports its two measurements from a module that is not among
      the sources.  [popup] binds them to the functions of that name of
      element.ts; [popup_with] takes them as parameters.
    - The inline style of an element is the store of the values assigned to
      it, and no statement says what the platform makes of them; a node's
      box is what the platform last measured, and no statement says that it
      survives a write.
    - [undefined] obtained by reading a property an object does not have is
      [None]; arithmetic on it yields [NaN] and every comparison with [NaN]
      is false.
    - The DOM is a store of element nodes addressed by a reference ([nat]);
      a [null] reference is [None].  [console.warn] appends to a log.
    - [throw] is the [Throw] completion.
    - [document.querySelector] and [appendChild] belong to the platform and
      are parameters of the functions that call them; a callback given to
      [setTimeout] is queued, not run. *)

From Stdlib Require Import ZArith QArith Qround Lqa Lia Bool List String Ascii.
From Stdlib Require Import DecimalString.
Import ListNotations.

Local Open Scope Z_scope.

(** ** JavaScript numbers *)

(** [Math.round]: the nearest integer, halves going towards +infinity. *)
Definition Math_round (q : Q) : Z := Qfloor (q + (1 # 2))%Q.

(** The number type once [undefined] may flow into arithmetic. *)
Inductive Number : Type :=
| NaN
| Num (q : Q).

(** [ToNumber] of a value that is either [undefined] or an integer. *)
Definition ToNumber (v : option Z) : Number :=
  match v with
  | None => NaN
  | Some z => Num (inject_Z z)
  end.

Definition num_add (a b : Number) : Number :=
  match a, b with
  | Num x, Num y => Num (x + y)%Q
  | _, _ => NaN
  end.

Definition num_sub (a b : Number) : Number :=
  match a, b with
  | Num x, Num y => Num (x - y)%Q
  | _, _ => NaN
  end.

Definition num_div (a b : Number) : Number :=
  match a, b with
  | Num x, Num y => Num (x / y)%Q
  | _, _ => NaN
  end.

(** [a < b]: false as soon as one side is [NaN]. *)
Definition num_lt (a b : Number) : bool :=
  match a, b with
  | Num x, Num y => negb (Qle_bool y x)
  | _, _ => false
  end.

(** [a > b]. *)
Definition num_gt (a b : Number) : bool := num_lt b a.

(** [`${n}`] for an integer [n]. *)
Definition string_of_Z (n : Z) : string := NilZero.string_of_int (Z.to_int n).

(** [`${v}`] for a value that is [undefined] or an integer. *)
Definition ToString (v : option Z) : string :=
  match v with
  | None => "undefined"
  | Some z => string_of_Z z
  end.

(** ** Completions *)

Inductive JsError : Type :=
| Error (message : string).

Inductive Completion (A : Type) : Type :=
| Return (a : A)
| Throw (e : JsError).
Arguments Return {A} a.
Arguments Throw {A} e.

(** ** Rectangles *)

(** The platform's [DOMRect], as [scaleRect] destructures it. *)
Module DOMRect.
Record t : Type := mk {
  left : Q; top : Q; right : Q; bottom : Q;
  width : Q; height : Q; x : Q; y : Q }.

(** What the platform guarantees of a measured box: the right and bottom
    edges are the left and top edges moved by the size. *)
Definition wf (r : t) : bool :=
  Qeq_bool (right r) (left r + width r)
  && Qeq_bool (bottom r) (top r + height r).
End DOMRect.

Module OffsetRect.
Record t : Type := mk {
  left : Z; top : Z; right : Z; bottom : Z;
  width : Z; height : Z }.

(** Reading a property by name, as object destructuring does: a name the
    object does not carry reads as [undefined]. *)
Definition get (r : t) (key : string) : option Z :=
  if String.eqb key "left" then Some (left r)
  else if String.eqb key "top" then Some (top r)
  else if String.eqb key "right" then Some (right r)
  else if String.eqb key "bottom" then Some (bottom r)
  else if String.eqb key "width" then Some (width r)
  else if String.eqb key "height" then Some (height r)
  else None.
End OffsetRect.

Module ScaledDOMRect.
Record t : Type := mk {
  left : Z; top : Z; right : Z; bottom : Z;
  width : Z; height : Z; x : Z; y : Z }.
End ScaledDOMRect.

(** ** The DOM *)

(** A value stored in a style object. *)
Inductive Value : Type :=
| VUndefined
| VNull
| VBoolean (b : bool)
| VNumber (n : Z)
| VString (s : string).

(** A JavaScript object used as a string-keyed map, in insertion order. *)
Definition Props : Type := list (string * Value).

Fixpoint set_prop (key : string) (v : Value) (o : Props) : Props :=
  match o with
  | [] => [(key, v)]
  | (k, w) :: rest =>
      if String.eqb k key then (k, v) :: rest
      else (k, w) :: set_prop key v rest
  end.

Fixpoint get_prop (key : string) (o : Props) : option Value :=
  match o with
  | [] => None
  | (k, w) :: rest => if String.eqb k key then Some w else get_prop key rest
  end.

Definition has_prop (key : string) (o : Props) : bool :=
  match get_prop key o with Some _ => true | None => false end.

Definition Ref : Type := nat.

Record HTMLElement : Type := mkElement {
  boundingClientRect : DOMRect.t;     (* result of getBoundingClientRect() *)
  clientRects : list DOMRect.t;       (* result of getClientRects() *)
  parentElement : option Ref;
  inlineStyle : Props;                (* element.style *)
  classList : list string }.

Record Window : Type := mkWindow {
  innerWidth : Z;
  innerHeight : Z }.

Record Page : Type := mkPage {
  nodes : Ref -> HTMLElement;
  console : list string }.

Definition update_node (r : Ref) (f : HTMLElement -> HTMLElement) (p : Page) : Page :=
  {| nodes := fun i => if Nat.eqb i r then f (nodes p r) else nodes p i;
     console := console p |}.

Definition console_warn (msg : string) (p : Page) : Page :=
  {| nodes := nodes p; console := console p ++ [msg] |}.

(** [classList.add]: a token already present is not added again. *)
Definition classList_add (c : string) (e : HTMLElement) : HTMLElement :=
  {| boundingClientRect := boundingClientRect e;
     clientRects := clientRects e;
     parentElement := parentElement e;
     inlineStyle := inlineStyle e;
     classList := if existsb (String.eqb c) (classList e)
                  then classList e else classList e ++ [c] |}.

Definition with_inlineStyle (s : Props) (e : HTMLElement) : HTMLElement :=
  {| boundingClientRect := boundingClientRect e;
     clientRects := clientRects e;
     parentElement := parentElement e;
     inlineStyle := s;
     classList := classList e |}.

(** ** element.ts *)

Definition scaleRect (rect : DOMRect.t) (scale : Q) : ScaledDOMRect.t :=
  {| ScaledDOMRect.left := Math_round (DOMRect.left rect / scale);
     ScaledDOMRect.top := Math_round (DOMRect.top rect / scale);
     ScaledDOMRect.right := Math_round (DOMRect.right rect / scale);
     ScaledDOMRect.bottom := Math_round (DOMRect.bottom rect / scale);
     ScaledDOMRect.width := Math_round (DOMRect.width rect / scale);
     ScaledDOMRect.height := Math_round (DOMRect.height rect / scale);
     ScaledDOMRect.x := Math_round (DOMRect.x rect / scale);
     ScaledDOMRect.y := Math_round (DOMRect.y rect / scale) |}.

Definition scaledBoundingClientRect (element : HTMLElement) (scale : Q)
  : ScaledDOMRect.t :=
  scaleRect (boundingClientRect element) scale.

Definition scaledClientRects (element : HTMLElement) (scale : Q)
  : list ScaledDOMRect.t :=
  fold_left (fun scaled rect => scaled ++ [scaleRect rect scale])
            (clientRects element) [].

(** The [relativeTo] argument of [offsets]. *)
Inductive RelativeTo : Type :=
| RelOmitted                  (* undefined, or another falsy non-boolean *)
| RelBoolean (b : bool)
| RelElement (r : Ref)
| RelForeign.                 (* truthy, without a callable getBoundingClientRect *)

(** What the local [relation] holds. *)
Inductive Relation : Type :=
| Nullish
| Boundable (r : Ref)
| Unboundable.

Definition truthy_relativeTo (relativeTo : RelativeTo) : bool :=
  match relativeTo with
  | RelOmitted => false
  | RelBoolean b => b
  | RelElement _ => true
  | RelForeign => true
  end.

Definition resolve_relation (element : HTMLElement) (relativeTo : RelativeTo)
  : Relation :=
  match relativeTo with
  | RelBoolean _ =>
      match parentElement element with
      | Some p => Boundable p
      | None => Nullish
      end
  | RelElement r => Boundable r
  | RelForeign => Unboundable
  | RelOmitted => Nullish
  end.

Definition invalid_relativeTo : JsError :=
  Error "Invalid relativeTo argument. Must be boolean or HTML Element!".

Section Measurement.
Variable window : Window.
Variable page : Page.

Definition offsets (element : Ref) (relativeTo : RelativeTo) (scale : Q)
  : Completion OffsetRect.t :=
  if truthy_relativeTo relativeTo then
    match resolve_relation (nodes page element) relativeTo with
    | Boundable relation =>
        let e := scaledBoundingClientRect (nodes page element) scale in
        let r := scaledBoundingClientRect (nodes page relation) scale in
        let eLeft := ScaledDOMRect.left e in
        let eTop := ScaledDOMRect.top e in
        let width := ScaledDOMRect.width e in
        let height := ScaledDOMRect.height e in
        let rLeft := ScaledDOMRect.left r in
        let rTop := ScaledDOMRect.top r in
        let rWidth := ScaledDOMRect.width r in
        let rHeight := ScaledDOMRect.height r in
        let left := Math_round (inject_Z eLeft - inject_Z rLeft) in
        let top := Math_round (inject_Z eTop - inject_Z rTop) in
        let right :=
          Math_round (inject_Z rWidth - (inject_Z left + inject_Z width)) in
        let bottom :=
          Math_round (inject_Z rHeight - (inject_Z top + inject_Z height)) in
        Return {| OffsetRect.width := width; OffsetRect.height := height;
                  OffsetRect.left := left; OffsetRect.top := top;
                  OffsetRect.right := right; OffsetRect.bottom := bottom |}
    | _ => Throw invalid_relativeTo
    end
  else
    let e := scaledBoundingClientRect (nodes page element) scale in
    Return {| OffsetRect.width := ScaledDOMRect.width e;
              OffsetRect.height := ScaledDOMRect.height e;
              OffsetRect.left := ScaledDOMRect.left e;
              OffsetRect.top := ScaledDOMRect.top e;
              OffsetRect.right :=
                Math_round (inject_Z (innerWidth window) / scale
                            - inject_Z (ScaledDOMRect.right e));
              OffsetRect.bottom :=
                Math_round (inject_Z (innerHeight window) / scale
                            - inject_Z (ScaledDOMRect.bottom e)) |}.
End Measurement.

(** ** The style applier *)

(** JavaScript truthiness. *)
Definition truthy (v : Value) : bool :=
  match v with
  | VUndefined => false
  | VNull => false
  | VBoolean b => b
  | VNumber n => negb (n =? 0)
  | VString s => negb (String.eqb s "")
  end.

(** The local [val] of [style]: a number is turned into a string, with the
    pixel unit when it is positive; anything else is kept. *)
Definition style_val (value : Value) : Value :=
  match value with
  | VNumber n =>
      if 0 <? n then VString (string_of_Z n ++ "px")
      else VString (string_of_Z n)
  | _ => value
  end.

(** [element.removeAttribute('style')]. *)
Definition remove_style_attribute (e : HTMLElement) : HTMLElement :=
  with_inlineStyle [] e.

(** One turn of the loop of [style]: the guard looks at [val], the
    assignment stores [value].  The store keeps the value as it is assigned;
    what the platform makes of it afterwards is outside this file. *)
Definition style_entry (element : Ref) (page : Page) (entry : string * Value)
  : Page :=
  let (key, value) := entry in
  let val := style_val value in
  if truthy val
  then update_node element
         (fun e => with_inlineStyle (set_prop key value (inlineStyle e)) e) page
  else page.

Definition style (element : Ref) (styles : Props) (reset : bool) (page : Page)
  : Page :=
  let page := if reset then update_node element remove_style_attribute page
              else page in
  fold_left (style_entry element) styles page.

(** ** The placement engine *)

Inductive DirectionX : Type := before | after | betweenX | left | right.
Inductive DirectionY : Type := above | below | betweenY | top | bottom.

Record PopupOptions : Type := mkOptions {
  element : option Ref;
  parent : option Ref;
  xDir : option DirectionX;
  yDir : option DirectionY;
  scale : option Q;
  swap : option bool;
  space : option Z }.

(** A destructuring default: it applies when the property is [undefined]. *)
Definition or_default {A : Type} (d : A) (o : option A) : A :=
  match o with Some a => a | None => d end.

(** The mutable locals of [popup] together with the page. *)
Record Frame : Type := mkFrame {
  styles : Props;
  tx : string;
  ty : string;
  frame_page : Page }.

Definition Stmt : Type := Frame -> Frame.

Definition seq (s1 s2 : Stmt) : Stmt := fun f => s2 (s1 f).
Notation "s1 ;; s2" := (seq s1 s2) (at level 61, left associativity).

Definition assign (key : string) (v : string) : Stmt := fun f =>
  {| styles := set_prop key (VString v) (styles f);
     tx := tx f; ty := ty f; frame_page := frame_page f |}.

Definition set_tx (v : string) : Stmt := fun f =>
  {| styles := styles f; tx := v; ty := ty f; frame_page := frame_page f |}.

Definition set_ty (v : string) : Stmt := fun f =>
  {| styles := styles f; tx := tx f; ty := v; frame_page := frame_page f |}.

Definition add_class (element : Ref) (c : string) : Stmt := fun f =>
  {| styles := styles f; tx := tx f; ty := ty f;
     frame_page := update_node element (classList_add c) (frame_page f) |}.

(** [`${n}px`]. *)
Definition px (n : Z) : string := string_of_Z n ++ "px".

Section Placement.
Variable window : Window.
Variable element : Ref.
(* what [popup] destructures from [offsets(parent, false, scale)] *)
Variables left_ top_ right_ bottom_ width_ height_ : Z.
Variables centerX centerY : option Z.
(* the element's own scaled size *)
Variables elWidth elHeight : Z.
Variable swap_ : bool.
Variable space_ : Z.

Definition half (n : Z) : Number := num_div (Num (inject_Z n)) (Num 2).

Definition horizontal (xDir_ : DirectionX) : Stmt :=
  match xDir_ with
  | before =>
      let offSide := right_ + elWidth <? 0 in
      if offSide then
        (if swap_ then assign "left" (px (left_ + width_))
         else assign "left" "0") ;;
        assign "marginLeft" (px space_) ;;
        add_class element "x-after"
      else
        assign "right" (px (right_ + width_)) ;;
        assign "marginRight" (px space_) ;;
        add_class element "x-before"
  | after =>
      let offSide := left_ + elWidth >? innerWidth window in
      if offSide then
        (if swap_ then assign "right" (px (right_ + width_))
         else assign "right" "0") ;;
        assign "marginRight" (px space_) ;;
        add_class element "x-before"
      else
        assign "left" (px (left_ + width_)) ;;
        assign "marginLeft" (px space_) ;;
        add_class element "x-after"
  | betweenX =>
      let offsideLeft :=
        num_lt (num_sub (ToNumber centerX) (half elWidth)) (Num 0) in
      let offsideRight :=
        num_gt (num_add (ToNumber centerX) (half elWidth))
               (Num (inject_Z (innerWidth window))) in
      if offsideLeft then
        assign "left" (px space_) ;;
        assign "maxWidth" (px (innerWidth window - space_ * 2)) ;;
        add_class element "x-screen-left"
      else if offsideRight then
        assign "right" (px space_) ;;
        assign "maxWidth" (px (innerWidth window - space_ * 2)) ;;
        add_class element "x-screen-right"
      else
        assign "left" (ToString centerX ++ "px") ;;
        set_tx "-50%" ;;
        add_class element "x-between"
  | left =>
      assign "left" (px left_) ;;
      add_class element "x-left"
  | right =>
      assign "right" (px right_) ;;
      add_class element "x-right"
  end.

Definition vertical (yDir_ : DirectionY) : Stmt :=
  match yDir_ with
  | above =>
      let offSide := bottom_ + elHeight <? 0 in
      if offSide then
        (if swap_ then assign "top" (px (top_ + height_))
         else assign "top" "0") ;;
        assign "marginTop" (px space_) ;;
        add_class element "y-below"
      else
        assign "bottom" (px (bottom_ + height_)) ;;
        assign "marginBottom" (px space_) ;;
        add_class element "y-above"
  | below =>
      let offSide := top_ + elHeight >? innerHeight window in
      if offSide then
        (if swap_ then
           assign "bottom" (px (bottom_ + height_)) ;;
           add_class element "y-below"
         else assign "bottom" "0") ;;
        assign "marginBottom" (px space_) ;;
        add_class element "y-above"
      else
        assign "top" (px (top_ + height_)) ;;
        assign "marginTop" (px space_) ;;
        add_class element "y-below"
  | betweenY =>
      let offsideTop :=
        num_lt (num_sub (ToNumber centerY) (half elHeight)) (Num 0) in
      let offsideBottom :=
        num_gt (num_add (ToNumber centerY) (half elHeight))
               (Num (inject_Z (innerHeight window))) in
      if offsideTop then
        assign "top" (px space_) ;;
        assign "maxHeight" (px (innerHeight window - space_ * 2)) ;;
        add_class element "y-screen-top"
      else if offsideBottom then
        assign "bottom" (px space_) ;;
        assign "maxHeight" (px (innerHeight window - space_ * 2)) ;;
        add_class element "y-screen-bottom"
      else
        assign "top" (ToString centerY ++ "px") ;;
        set_ty "-50%" ;;
        add_class element "y-between"
  | top =>
      assign "top" (px top_) ;;
      add_class element "y-top"
  | bottom =>
      assign "bottom" (px bottom_) ;;
      add_class element "y-bottom"
  end.

(** [styles.transform = `translate3d(${tx}, ${ty}, 0)`]. *)
Definition assign_transform : Stmt := fun f =>
  assign "transform" ("translate3d(" ++ tx f ++ ", " ++ ty f ++ ", 0)") f.
End Placement.

Definition popup_warning : string :=
  "Popup ignored because the given element/parent in the options is not an HTML Element.".

(** The body of [popup] from the measurements up to the assignment of the
    transform, for an element and a parent that are present: the frame it
    ends in holds the style patch. *)
Definition placement (window : Window) (options : PopupOptions)
    (element_ parent_ : Ref) (page : Page) : Completion Frame :=
  let xDir_ := or_default betweenX (xDir options) in
  let yDir_ := or_default below (yDir options) in
  let scale_ := or_default 1%Q (scale options) in
  let swap_ := or_default true (swap options) in
  let space_ := or_default 8 (space options) in
  let el := scaledBoundingClientRect (nodes page element_) scale_ in
  let elWidth := ScaledDOMRect.width el in
  let elHeight := ScaledDOMRect.height el in
  match offsets window page parent_ (RelBoolean false) scale_ with
  | Throw e => Throw e
  | Return o =>
      let centerX := OffsetRect.get o "centerX" in
      let centerY := OffsetRect.get o "centerY" in
      Return
        ((horizontal window element_ (OffsetRect.left o) (OffsetRect.right o)
            (OffsetRect.width o) centerX elWidth swap_ space_ xDir_ ;;
          vertical window element_ (OffsetRect.top o) (OffsetRect.bottom o)
            (OffsetRect.height o) centerY elHeight swap_ space_ yDir_ ;;
          assign_transform)
           {| styles := []; tx := "0"; ty := "0"; frame_page := page |})
  end.

Definition popup (window : Window) (options : PopupOptions) (page : Page)
  : Completion Page :=
  match element options, parent options with
  | Some element_, Some parent_ =>
      match placement window options element_ parent_ page with
      | Throw e => Throw e
      | Return f => Return (style element_ (styles f) false (frame_page f))
      end
  | _, _ => Return (console_warn popup_warning page)
  end.

(** ** Statements of the specification and sample pages *)

(** The viewport-relative [right] and [bottom] in the specification's words:
    the rounded, scale-divided viewport dimension minus the raw, unscaled
    edge. *)
Definition spec_viewport_right (window : Window) (rect : DOMRect.t) (scale : Q)
  : Q :=
  (inject_Z (Math_round (inject_Z (innerWidth window) / scale))
   - DOMRect.right rect)%Q.

Definition spec_viewport_bottom (window : Window) (rect : DOMRect.t) (scale : Q)
  : Q :=
  (inject_Z (Math_round (inject_Z (innerHeight window) / scale))
   - DOMRect.bottom rect)%Q.

(** A box at [(l, t)] of size [w] by [h]. *)
Definition box (l t w h : Z) : DOMRect.t :=
  {| DOMRect.left := inject_Z l; DOMRect.top := inject_Z t;
     DOMRect.right := inject_Z (l + w); DOMRect.bottom := inject_Z (t + h);
     DOMRect.width := inject_Z w; DOMRect.height := inject_Z h;
     DOMRect.x := inject_Z l; DOMRect.y := inject_Z t |}.

(** A detached node without inline style or classes. *)
Definition node (r : DOMRect.t) : HTMLElement :=
  {| boundingClientRect := r; clientRects := [r]; parentElement := None;
     inlineStyle := []; classList := [] |}.

(** A page whose node 0 is the popup element and whose other nodes are the
    anchor. *)
Definition page_of (popup_box anchor_box : DOMRect.t) : Page :=
  {| nodes := fun i => match i with
                       | O => node popup_box
                       | S _ => node anchor_box
                       end;
     console := [] |}.

Definition viewport_400 : Window := {| innerWidth := 400; innerHeight := 300 |}.


(** A statement that leaves every class of every node in place. *)
Definition keeps_classes (s : Stmt) : Prop :=
  forall (f : Frame) (r : Ref) (c : string),
    In c (classList (nodes (frame_page f) r)) ->
    In c (classList (nodes (frame_page (s f)) r)).

(** The options of a call that names element 0 and anchor 1. *)
Definition options_of (x : option DirectionX) (y : option DirectionY)
    (sw : option bool) (sp : option Z) : PopupOptions :=
  {| element := Some 0%nat; parent := Some 1%nat; xDir := x; yDir := y;
     scale := None; swap := sw; space := sp |}.

(** Between centering: the anchor spans x in [150, 250], centre 200; the
    popup is 50 wide. *)
Definition centering_page : Page := page_of (box 0 0 50 30) (box 150 50 100 20).

(** Swap: the anchor spans x in [0, 100]; the popup is 150 wide. *)
Definition swap_page : Page := page_of (box 0 0 150 30) (box 0 50 100 20).

(** Screen-edge clamp: the anchor spans x in [0, 20], centre 10; the popup
    is 50 wide. *)
Definition clamp_page : Page := page_of (box 0 0 50 30) (box 0 50 20 20).

(** An anchor close to the lower edge of the viewport. *)
Definition low_anchor_page : Page := page_of (box 0 0 50 30) (box 150 280 100 20).

(** ** Moving elements and deferred calls *)

(** A callback handed to [setTimeout]. *)
Inductive Task : Type :=
| TaskPopup (options : PopupOptions)       (* () => popup(options) *)
| TaskAppend (parent_ element_ : Ref).     (* () => parent.appendChild(element) *)

(** The page together with the callbacks that wait for their delay, in the
    order in which they were set. *)
Record Document : Type := mkDocument {
  doc_page : Page;
  timers : list (Z * Task) }.

Definition popTo_warning : string :=
  "Popup ignored because the given element in the options is not an HTML Element.".

Definition doc_warn (msg : string) (doc : Document) : Document :=
  {| doc_page := console_warn msg (doc_page doc); timers := timers doc |}.

(** [setTimeout(callback, delay)]. *)
Definition setTimeout (task : Task) (delay : Z) (pg : Page) (doc : Document)
  : Document :=
  {| doc_page := pg; timers := timers doc ++ [(delay, task)] |}.

Section Moves.
Variable window : Window.
(* The platform: [document.querySelector], which may reject its selector,
   [document.body], and [target.appendChild(child)] together with whatever
   it does to the layout, which may reject the move. *)
Variable querySelector : string -> Page -> Completion (option Ref).
Variable body : Ref.
Variable appendChild : Ref -> Ref -> Page -> Completion Page.

(** The shared move of [popTo] and [appendTo]: into the node the selector
    finds, or into the body. *)
Definition append_to_slot (slot : string) (element_ : Ref) (pg : Page)
  : Completion Page :=
  match querySelector slot pg with
  | Throw err => Throw err
  | Return (Some wrapper) => appendChild wrapper element_ pg
  | Return None => appendChild body element_ pg
  end.

(** [debounce] is [Some d] when [typeof debounce === 'number']. *)
Definition popTo (slot : string) (options : PopupOptions) (debounce : option Z)
    (doc : Document) : Completion Document :=
  match element options with
  | None => Return (doc_warn popTo_warning doc)
  | Some element_ =>
      match append_to_slot slot element_ (doc_page doc) with
      | Throw err => Throw err
      | Return pg =>
          match debounce with
          | Some d => Return (setTimeout (TaskPopup options) d pg doc)
          | None =>
              match popup window options pg with
              | Throw err => Throw err
              | Return pg' =>
                  Return {| doc_page := pg'; timers := timers doc |}
              end
          end
      end
  end.

Definition restore (options : PopupOptions) (debounce : option Z)
    (doc : Document) : Completion Document :=
  match element options, parent options with
  | Some element_, Some parent_ =>
      let pg := update_node element_ remove_style_attribute (doc_page doc) in
      match debounce with
      | Some d => Return (setTimeout (TaskAppend parent_ element_) d pg doc)
      | None =>
          match appendChild parent_ element_ pg with
          | Throw err => Throw err
          | Return pg' => Return {| doc_page := pg'; timers := timers doc |}
          end
      end
  | _, _ => Return (doc_warn popup_warning doc)
  end.

(** [target] is a node or a selector string. *)
Definition appendTo (target : Ref + string) (element_ : Ref) (pg : Page)
  : Completion Page :=
  match target with
  | inr selector => append_to_slot selector element_ pg
  | inl node_ => appendChild node_ element_ pg
  end.
End Moves.

(** ** Vocabulary of the further properties *)

(** The values [style] passes over: [undefined], [null], [false] and the
    empty string. *)
Definition skipped (v : Value) : bool :=
  match v with
  | VUndefined => true
  | VNull => true
  | VBoolean b => negb b
  | VNumber _ => false
  | VString s => String.eqb s ""
  end.

(** An object whose keys are distinct and whose values are non-empty
    strings. *)
Definition solid_patch (o : Props) : Prop :=
  NoDup (map fst o)
  /\ Forall (fun kv => exists s, snd kv = VString s /\ s <> ""%string) o.

(** A statement that keeps patches solid. *)
Definition keeps_solid (s : Stmt) : Prop :=
  forall f, solid_patch (styles f) -> solid_patch (styles (s f)).

(** A statement whose effect on the locals does not depend on the page. *)
Definition page_blind (s : Stmt) : Prop :=
  forall f g,
    styles f = styles g -> tx f = tx g -> ty f = ty g ->
    styles (s f) = styles (s g) /\ tx (s f) = tx (s g) /\ ty (s f) = ty (s g).

(** A statement after which the node carries the class. *)
Definition adds_class (target : Ref) (c : string) (s : Stmt) : Prop :=
  forall f, In c (classList (nodes (frame_page (s f)) target)).

(** The simplest platform: no selector matches, and a move only records the
    new parent. *)
Definition no_match (slot : string) (pg : Page) : Completion (option Ref) :=
  Return None.

Definition with_parentElement (p : option Ref) (e : HTMLElement) : HTMLElement :=
  {| boundingClientRect := boundingClientRect e;
     clientRects := clientRects e;
     parentElement := p;
     inlineStyle := inlineStyle e;
     classList := classList e |}.

Definition plain_appendChild (target child : Ref) (pg : Page)
  : Completion Page :=
  Return (update_node child (with_parentElement (Some target)) pg).

(** A page whose popup element already carries an inline style and a
    class. *)
Definition styled_page : Page :=
  update_node 0%nat
    (fun e => classList_add "open"
                (with_inlineStyle [("color"%string, VString "red")] e))
    centering_page.

(** A box whose eight numbers are the given integers times [scale]. *)
Definition multiples_box (scale : Q) (l t r b w h x y : Z) : DOMRect.t :=
  {| DOMRect.left := (inject_Z l * scale)%Q;
     DOMRect.top := (inject_Z t * scale)%Q;
     DOMRect.right := (inject_Z r * scale)%Q;
     DOMRect.bottom := (inject_Z b * scale)%Q;
     DOMRect.width := (inject_Z w * scale)%Q;
     DOMRect.height := (inject_Z h * scale)%Q;
     DOMRect.x := (inject_Z x * scale)%Q;
     DOMRect.y := (inject_Z y * scale)%Q |}.

(** ** The measurement over the machine's arithmetic *)

(** [scaleRect] and [offsets] once more, with the division, the subtraction
    and the addition of numbers left open: they stand for what the machine
    computes, the exact results or the results rounded to a double.
    [Math.round] is exact on the number it is given, and stays. *)
Section MachineArithmetic.
Variable m_div : Q -> Q -> Q.
Variable m_sub : Q -> Q -> Q.
Variable m_add : Q -> Q -> Q.

Definition scaleRect_on (rect : DOMRect.t) (scale : Q) : ScaledDOMRect.t :=
  {| ScaledDOMRect.left := Math_round (m_div (DOMRect.left rect) scale);
     ScaledDOMRect.top := Math_round (m_div (DOMRect.top rect) scale);
     ScaledDOMRect.right := Math_round (m_div (DOMRect.right rect) scale);
     ScaledDOMRect.bottom := Math_round (m_div (DOMRect.bottom rect) scale);
     ScaledDOMRect.width := Math_round (m_div (DOMRect.width rect) scale);
     ScaledDOMRect.height := Math_round (m_div (DOMRect.height rect) scale);
     ScaledDOMRect.x := Math_round (m_div (DOMRect.x rect) scale);
     ScaledDOMRect.y := Math_round (m_div (DOMRect.y rect) scale) |}.

Definition scaledBoundingClientRect_on (element : HTMLElement) (scale : Q)
  : ScaledDOMRect.t :=
  scaleRect_on (boundingClientRect element) scale.

Definition offsets_on (window : Window) (page : Page) (element : Ref)
    (relativeTo : RelativeTo) (scale : Q) : Completion OffsetRect.t :=
  if truthy_relativeTo relativeTo then
    match resolve_relation (nodes page element) relativeTo with
    | Boundable relation =>
        let e := scaledBoundingClientRect_on (nodes page element) scale in
        let r := scaledBoundingClientRect_on (nodes page relation) scale in
        let eLeft := ScaledDOMRect.left e in
        let eTop := ScaledDOMRect.top e in
        let width := ScaledDOMRect.width e in
        let height := ScaledDOMRect.height e in
        let rLeft := ScaledDOMRect.left r in
        let rTop := ScaledDOMRect.top r in
        let rWidth := ScaledDOMRect.width r in
        let rHeight := ScaledDOMRect.height r in
        let left := Math_round (m_sub (inject_Z eLeft) (inject_Z rLeft)) in
        let top := Math_round (m_sub (inject_Z eTop) (inject_Z rTop)) in
        let right :=
          Math_round (m_sub (inject_Z rWidth)
                            (m_add (inject_Z left) (inject_Z width))) in
        let bottom :=
          Math_round (m_sub (inject_Z rHeight)
                            (m_add (inject_Z top) (inject_Z height))) in
        Return {| OffsetRect.width := width; OffsetRect.height := height;
                  OffsetRect.left := left; OffsetRect.top := top;
                  OffsetRect.right := right; OffsetRect.bottom := bottom |}
    | _ => Throw invalid_relativeTo
    end
  else
    let e := scaledBoundingClientRect_on (nodes page element) scale in
    Return {| OffsetRect.width := ScaledDOMRect.width e;
              OffsetRect.height := ScaledDOMRect.height e;
              OffsetRect.left := ScaledDOMRect.left e;
              OffsetRect.top := ScaledDOMRect.top e;
              OffsetRect.right :=
                Math_round (m_sub (m_div (inject_Z (innerWidth window)) scale)
                                  (inject_Z (ScaledDOMRect.right e)));
              OffsetRect.bottom :=
                Math_round (m_sub (m_div (inject_Z (innerHeight window)) scale)
                                  (inject_Z (ScaledDOMRect.bottom e))) |}.
End MachineArithmetic.

(** ** popup over the measurements it imports *)

(** What [popup] destructures from the result of the [offsets] it imports:
    the six numbers of an offset rectangle and the centre of the measured
    box.  [None] stands for a centre the measurement does not report. *)
Record MeasuredRect : Type := mkMeasured {
  measured : OffsetRect.t;
  centerX : option Z;
  centerY : option Z }.

(** [popup] imports [offsets] and [scaledBoundingClientRect] from
    './rectangle', a module that is not among the sources.  Here both are
    parameters of [popup]; the body is the one of [placement] and [popup]
    above. *)
Section Rectangle.
Variable rectangle_offsets :
  Window -> Page -> Ref -> RelativeTo -> Q -> Completion MeasuredRect.
Variable rectangle_scaledBoundingClientRect :
  HTMLElement -> Q -> ScaledDOMRect.t.

Definition placement_with (window : Window) (options : PopupOptions)
    (element_ parent_ : Ref) (page : Page) : Completion Frame :=
  let xDir_ := or_default betweenX (xDir options) in
  let yDir_ := or_default below (yDir options) in
  let scale_ := or_default 1%Q (scale options) in
  let swap_ := or_default true (swap options) in
  let space_ := or_default 8 (space options) in
  let el := rectangle_scaledBoundingClientRect (nodes page element_) scale_ in
  let elWidth := ScaledDOMRect.width el in
  let elHeight := ScaledDOMRect.height el in
  match rectangle_offsets window page parent_ (RelBoolean false) scale_ with
  | Throw e => Throw e
  | Return m =>
      let o := measured m in
      Return
        ((horizontal window element_ (OffsetRect.left o) (OffsetRect.right o)
            (OffsetRect.width o) (centerX m) elWidth swap_ space_ xDir_ ;;
          vertical window element_ (OffsetRect.top o) (OffsetRect.bottom o)
            (OffsetRect.height o) (centerY m) elHeight swap_ space_ yDir_ ;;
          assign_transform)
           {| styles := []; tx := "0"; ty := "0"; frame_page := page |})
  end.

Definition popup_with (window : Window) (options : PopupOptions) (page : Page)
  : Completion Page :=
  match element options, parent options with
  | Some element_, Some parent_ =>
      match placement_with window options element_ parent_ page with
      | Throw e => Throw e
      | Return f => Return (style element_ (styles f) false (frame_page f))
      end
  | _, _ => Return (console_warn popup_warning page)
  end.
End Rectangle.

(** The measurement [popup] gets when './rectangle' is element.ts: no centre
    is reported. *)
Definition offsets_of_element_ts (window : Window) (page : Page) (element_ : Ref)
    (relativeTo : RelativeTo) (scale_ : Q) : Completion MeasuredRect :=
  match offsets window page element_ relativeTo scale_ with
  | Throw e => Throw e
  | Return o =>
      Return {| measured := o;
                centerX := OffsetRect.get o "centerX";
                centerY := OffsetRect.get o "centerY" |}
  end.

(** A measurement that reports a centre, for the sample calls: the numbers
    of [offsets], and the middle of the measured box. *)
Definition offsets_with_centre (window : Window) (page : Page) (element_ : Ref)
    (relativeTo : RelativeTo) (scale_ : Q) : Completion MeasuredRect :=
  match offsets window page element_ relativeTo scale_ with
  | Throw e => Throw e
  | Return o =>
      Return {| measured := o;
                centerX :=
                  Some (OffsetRect.left o
                        + Math_round (inject_Z (OffsetRect.width o) / 2));
                centerY :=
                  Some (OffsetRect.top o
                        + Math_round (inject_Z (OffsetRect.height o) / 2)) |}
  end.

(** ** Further vocabulary *)

(** The width and the height of the viewport in the units of a result
    measured at [scale]. *)
Definition viewport_width_at (window : Window) (scale : Q) : Q :=
  (inject_Z (innerWidth window) / scale)%Q.

Definition viewport_height_at (window : Window) (scale : Q) : Q :=
  (inject_Z (innerHeight window) / scale)%Q.

Definition viewport_401 : Window := {| innerWidth := 401; innerHeight := 301 |}.

(** A statement that writes to the class list of one node and to nothing
    else of the page that a program can read back exactly: not to the
    console, not to a parent, not to an inline style, not to the classes of
    another node. *)
Definition touches_only (target : Ref) (s : Stmt) : Prop :=
  forall f,
    console (frame_page (s f)) = console (frame_page f)
    /\ (forall r, parentElement (nodes (frame_page (s f)) r)
                  = parentElement (nodes (frame_page f) r))
    /\ (forall r, inlineStyle (nodes (frame_page (s f)) r)
                  = inlineStyle (nodes (frame_page f) r))
    /\ (forall r, r <> target ->
                  classList (nodes (frame_page (s f)) r)
                  = classList (nodes (frame_page f) r)).

(** The entries of a patch for which [style] makes an assignment. *)
Definition assigned_entries (patch : Props) : Props :=
  filter (fun entry => truthy (style_val (snd entry))) patch.

(** ** Proof automation *)

(** Linear arithmetic over [Q] with the injected integers taken as atoms. *)
Ltac abstract_inject :=
  repeat match goal with
         | |- context [inject_Z ?z] =>
             let v := fresh "v" in
             let E := fresh "E" in
             remember (inject_Z z) as v eqn:E; clear E
         | H : context [inject_Z ?z] |- _ =>
             let v := fresh "v" in
             let E := fresh "E" in
             remember (inject_Z z) as v eqn:E; clear E
         end.
Ltac qlin := abstract_inject; lra.

(** Unfolds the scaling of a box and the record projections, and nothing of
    the arithmetic. *)
Ltac rect_simpl :=
  cbn [scaledBoundingClientRect scaleRect
       OffsetRect.left OffsetRect.top OffsetRect.right OffsetRect.bottom
       OffsetRect.width OffsetRect.height
       ScaledDOMRect.left ScaledDOMRect.top ScaledDOMRect.right
       ScaledDOMRect.bottom ScaledDOMRect.width ScaledDOMRect.height] in *.

(** * Properties *)

(** ** Rounding *)

Section Rounding.
Local Open Scope Q_scope.

Lemma Qfloor_unique (q : Q) (z : Z) :
  inject_Z z <= q -> q < inject_Z (z + 1) -> Qfloor q = z.
Proof.
  intros Hlo Hhi.
  pose proof (Qfloor_le q) as Hf.
  pose proof (Qlt_floor q) as Hc.
  assert (H1 : (Qfloor q < z + 1)%Z).
  { rewrite Zlt_Qlt. eapply Qle_lt_trans; eassumption. }
  assert (H2 : (z < Qfloor q + 1)%Z).
  { rewrite Zlt_Qlt. eapply Qle_lt_trans; eassumption. }
  lia.
Qed.

Lemma Math_round_lower (q : Q) : inject_Z (Math_round q) <= q + (1 # 2).
Proof. apply Qfloor_le. Qed.

Lemma Math_round_upper (q : Q) : q + (1 # 2) < inject_Z (Math_round q) + 1.
Proof.
  unfold Math_round.
  pose proof (Qlt_floor (q + (1 # 2))) as H.
  rewrite inject_Z_plus in H. exact H.
Qed.

Lemma Math_round_comp (p q : Q) : p == q -> Math_round p = Math_round q.
Proof. intros E. unfold Math_round. now rewrite E. Qed.

(** Subtracting an integer commutes with rounding. *)
Lemma Math_round_sub_Z (q : Q) (n : Z) :
  Math_round (q - inject_Z n) = (Math_round q - n)%Z.
Proof.
  pose proof (Math_round_lower q). pose proof (Math_round_upper q).
  unfold Math_round at 1. apply Qfloor_unique.
  - unfold Z.sub. rewrite inject_Z_plus, inject_Z_opp. qlin.
  - replace (Math_round q - n + 1)%Z with (Math_round q + 1 + - n)%Z by lia.
    rewrite !inject_Z_plus, inject_Z_opp.
    change (inject_Z 1) with 1. qlin.
Qed.

(** An integer rounds to itself. *)
Lemma Math_round_Z (z : Z) : Math_round (inject_Z z) = z.
Proof.
  unfold Math_round. apply Qfloor_unique.
  - qlin.
  - rewrite inject_Z_plus. change (inject_Z 1) with 1. qlin.
Qed.

Lemma Math_round_Z_sub (a b : Z) :
  Math_round (inject_Z a - inject_Z b) = (a - b)%Z.
Proof. now rewrite Math_round_sub_Z, Math_round_Z. Qed.

(** Rounding two summands one by one is off from rounding the sum by at
    most one. *)
Lemma Math_round_add_bound (a b : Q) :
  (-1 <= Math_round a + Math_round b - Math_round (a + b) <= 1)%Z.
Proof.
  pose proof (Math_round_lower a). pose proof (Math_round_upper a).
  pose proof (Math_round_lower b). pose proof (Math_round_upper b).
  pose proof (Math_round_lower (a + b)).
  pose proof (Math_round_upper (a + b)).
  split.
  - destruct (Z_lt_le_dec (Math_round a + Math_round b + 1) (Math_round (a + b)))
      as [Hlt | Hle]; [exfalso | lia].
    assert (Hq : (Math_round a + Math_round b + 2 <= Math_round (a + b))%Z) by lia.
    rewrite Zle_Qle in Hq. rewrite !inject_Z_plus in Hq.
    change (inject_Z 2) with 2 in Hq. qlin.
  - destruct (Z_lt_le_dec (Math_round (a + b) + 1) (Math_round a + Math_round b))
      as [Hlt | Hle]; [exfalso | lia].
    assert (Hq : (Math_round (a + b) + 2 <= Math_round a + Math_round b)%Z) by lia.
    rewrite Zle_Qle in Hq. rewrite !inject_Z_plus in Hq.
    change (inject_Z 2) with 2 in Hq. qlin.
Qed.
End Rounding.

(** ** Rectangle measurement *)

Lemma wf_edges (r : DOMRect.t) :
  DOMRect.wf r = true ->
  (DOMRect.right r == DOMRect.left r + DOMRect.width r)%Q
  /\ (DOMRect.bottom r == DOMRect.top r + DOMRect.height r)%Q.
Proof.
  unfold DOMRect.wf. rewrite !andb_true_iff, !Qeq_bool_iff. tauto.
Qed.

Lemma Qdiv_add_distr (a b c : Q) : ((a + b) / c == a / c + b / c)%Q.
Proof. unfold Qdiv. ring. Qed.

(** Along one axis, the scaled near edge plus the scaled size is within one
    of the scaled far edge. *)
Lemma scaled_edge_bound (near size far scale : Q) :
  (far == near + size)%Q ->
  -1 <= Math_round (near / scale) + Math_round (size / scale)
        - Math_round (far / scale) <= 1.
Proof.
  intros E.
  rewrite (Math_round_comp (far / scale) (near / scale + size / scale)).
  - apply Math_round_add_bound.
  - rewrite E. apply Qdiv_add_distr.
Qed.

(** C4, as the specification words it, fails: at scale 2 in a viewport 400
    wide, a box whose raw right edge is at 100 gets [right = 150], not
    [200 - 100]. *)
Lemma offsets_viewport_raw_edge_counterexample :
  exists r,
    offsets viewport_400 (page_of (box 0 0 100 40) (box 0 0 10 10)) 0%nat
            RelOmitted 2 = Return r
    /\ OffsetRect.right r = 150
    /\ (spec_viewport_right viewport_400 (box 0 0 100 40) 2 == 100)%Q
    /\ ~ (inject_Z (OffsetRect.right r)
          == spec_viewport_right viewport_400 (box 0 0 100 40) 2)%Q.
Proof.
  eexists. split; [reflexivity |].
  split; [reflexivity |]. split; [reflexivity |].
  vm_compute. discriminate.
Qed.

(** With the exact quotient, difference and sum the measurement over the
    machine's arithmetic is [offsets]. *)
Lemma offsets_on_exact
    (window : Window) (page : Page) (element : Ref) (relativeTo : RelativeTo)
    (scale : Q) :
  offsets_on Qdiv Qminus Qplus window page element relativeTo scale
  = offsets window page element relativeTo scale.
Proof. reflexivity. Qed.

(** C4, as the code has it: measured against the viewport, [right] is the
    rounding of the viewport width divided by the scale, less the right edge
    as [scaledBoundingClientRect] reports it, and that edge is the raw right
    edge divided by the scale and rounded.  The edge that is subtracted is
    the scaled one and the rounding comes after the subtraction; [bottom]
    likewise.  This holds whatever the machine's division and subtraction
    are. *)
Theorem offsets_viewport_subtracts_scaled_edge
    (m_div m_sub m_add : Q -> Q -> Q)
    (window : Window) (page : Page) (element : Ref) (relativeTo : RelativeTo)
    (scale : Q) :
  (0 < scale)%Q ->
  truthy_relativeTo relativeTo = false ->
  let raw := boundingClientRect (nodes page element) in
  let s := scaledBoundingClientRect_on m_div (nodes page element) scale in
  exists r,
    offsets_on m_div m_sub m_add window page element relativeTo scale
    = Return r
    /\ ScaledDOMRect.right s = Math_round (m_div (DOMRect.right raw) scale)
    /\ ScaledDOMRect.bottom s = Math_round (m_div (DOMRect.bottom raw) scale)
    /\ OffsetRect.right r
       = Math_round (m_sub (m_div (inject_Z (innerWidth window)) scale)
                           (inject_Z (ScaledDOMRect.right s)))
    /\ OffsetRect.bottom r
       = Math_round (m_sub (m_div (inject_Z (innerHeight window)) scale)
                           (inject_Z (ScaledDOMRect.bottom s))).
Proof.
  intros _ Hfalsy raw s. unfold offsets_on. rewrite Hfalsy.
  eexists. repeat split.
Qed.

Lemma offsets_viewport_subtracts_scaled_edge_witness :
  exists r,
    offsets viewport_400 (page_of (box 0 0 100 40) (box 0 0 10 10)) 0%nat
            RelOmitted 2 = Return r
    /\ OffsetRect.right r
       = Math_round (inject_Z 400 / 2
                     - inject_Z (Math_round (inject_Z (0 + 100) / 2)))
    /\ OffsetRect.bottom r
       = Math_round (inject_Z 300 / 2
                     - inject_Z (Math_round (inject_Z (0 + 40) / 2))).
Proof.
  destruct (offsets_viewport_subtracts_scaled_edge Qdiv Qminus Qplus
              viewport_400 (page_of (box 0 0 100 40) (box 0 0 10 10)) 0%nat
              RelOmitted 2 eq_refl eq_refl)
    as (r & Hr & _ & _ & Hright & Hbottom).
  exists r. split; [exact Hr |]. split; [exact Hright | exact Hbottom].
Defined.

(** C5, as the specification words it, fails: at scale 2 in a viewport 401
    wide, which is 200.5 wide in the units of the result, a well-formed box
    at 1 of width 1 gets [left = 1], [width = 1] and [right = 200]; the sum
    202 is 1.5 away from 200.5. *)
Lemma offsets_sum_counterexample :
  exists r,
    offsets viewport_401 (page_of (box 1 1 1 1) (box 0 0 10 10)) 0%nat
            RelOmitted 2 = Return r
    /\ DOMRect.wf (box 1 1 1 1) = true
    /\ OffsetRect.left r + OffsetRect.width r + OffsetRect.right r = 202
    /\ (viewport_width_at viewport_401 2 == 401 # 2)%Q
    /\ (1 < inject_Z (OffsetRect.left r + OffsetRect.width r
                       + OffsetRect.right r)
             - viewport_width_at viewport_401 2)%Q.
Proof. eexists. repeat split. Qed.

Lemma Math_round_scale_1 (q scale : Q) :
  (scale == 1)%Q -> Math_round (q / scale) = Math_round q.
Proof. intros H. apply Math_round_comp. rewrite H. field. Qed.

(** C5, as the code has it: whenever [offsets] returns a rectangle, the
    sums are exact against a reference element, [left + width + right] being
    the scaled width of the reference and [top + height + bottom] its scaled
    height; against the viewport at scale 1 they are within one of
    [innerWidth] and [innerHeight], for a box whose far edges are its near
    edges moved by its size. *)
Theorem offsets_sums
    (window : Window) (page : Page) (element : Ref) (relativeTo : RelativeTo)
    (scale : Q) (r : OffsetRect.t) :
  (0 < scale)%Q ->
  offsets window page element relativeTo scale = Return r ->
  (forall relation,
      truthy_relativeTo relativeTo = true ->
      resolve_relation (nodes page element) relativeTo = Boundable relation ->
      OffsetRect.left r + OffsetRect.width r + OffsetRect.right r
      = ScaledDOMRect.width
          (scaledBoundingClientRect (nodes page relation) scale)
      /\ OffsetRect.top r + OffsetRect.height r + OffsetRect.bottom r
         = ScaledDOMRect.height
             (scaledBoundingClientRect (nodes page relation) scale))
  /\ (truthy_relativeTo relativeTo = false ->
      (scale == 1)%Q ->
      DOMRect.wf (boundingClientRect (nodes page element)) = true ->
      Z.abs (OffsetRect.left r + OffsetRect.width r + OffsetRect.right r
             - innerWidth window) <= 1
      /\ Z.abs (OffsetRect.top r + OffsetRect.height r + OffsetRect.bottom r
                - innerHeight window) <= 1).
Proof.
  intros _ Hr. split.
  - intros relation Htruthy Hrel. revert Hr. unfold offsets.
    rewrite Htruthy, Hrel. intros [= <-]. rect_simpl.
    rewrite !Math_round_Z_sub, <- !inject_Z_plus, !Math_round_Z_sub. lia.
  - intros Hfalsy Hscale Hwf. revert Hr. unfold offsets. rewrite Hfalsy.
    intros [= <-]. rect_simpl.
    rewrite !Math_round_sub_Z, !(Math_round_scale_1 _ scale Hscale).
    rewrite !Math_round_Z.
    destruct (wf_edges _ Hwf) as [Hx Hy].
    pose proof (scaled_edge_bound _ _ _ 1 Hx) as Bx.
    pose proof (scaled_edge_bound _ _ _ 1 Hy) as By.
    rewrite !(Math_round_scale_1 _ 1 (Qeq_refl 1)) in Bx.
    rewrite !(Math_round_scale_1 _ 1 (Qeq_refl 1)) in By.
    lia.
Qed.

Lemma offsets_sums_witness :
  (exists r,
      offsets viewport_401 (page_of (box 13 7 31 9) (box 4 2 77 55)) 0%nat
              (RelElement 1%nat) 2 = Return r
      /\ OffsetRect.left r + OffsetRect.width r + OffsetRect.right r
         = ScaledDOMRect.width (scaleRect (box 4 2 77 55) 2)
      /\ OffsetRect.top r + OffsetRect.height r + OffsetRect.bottom r
         = ScaledDOMRect.height (scaleRect (box 4 2 77 55) 2))
  /\ (exists r,
         offsets viewport_401 (page_of (box 13 7 31 9) (box 4 2 77 55)) 0%nat
                 RelOmitted 1 = Return r
         /\ Z.abs (OffsetRect.left r + OffsetRect.width r + OffsetRect.right r
                   - 401) <= 1
         /\ Z.abs (OffsetRect.top r + OffsetRect.height r
                   + OffsetRect.bottom r - 301) <= 1).
Proof.
  split.
  - eexists. split; [reflexivity |].
    destruct (offsets_sums viewport_401
                (page_of (box 13 7 31 9) (box 4 2 77 55)) 0%nat
                (RelElement 1%nat) 2 _ eq_refl eq_refl) as [Hrel _].
    apply (Hrel 1%nat); reflexivity.
  - eexists. split; [reflexivity |].
    destruct (offsets_sums viewport_401
                (page_of (box 13 7 31 9) (box 4 2 77 55)) 0%nat
                RelOmitted 1 _ eq_refl eq_refl) as [_ Hview].
    apply Hview; reflexivity.
Defined.

(** C9: with a truthy [relativeTo] whose reference resolves to nothing, or
    to something that cannot be asked for its bounding box, [offsets] throws
    its invalid-reference error and returns no rectangle. *)
Theorem offsets_invalid_reference_throws
    (window : Window) (page : Page) (element : Ref) (relativeTo : RelativeTo)
    (scale : Q) :
  truthy_relativeTo relativeTo = true ->
  (forall relation,
      resolve_relation (nodes page element) relativeTo <> Boundable relation) ->
  offsets window page element relativeTo scale = Throw invalid_relativeTo
  /\ forall r, offsets window page element relativeTo scale <> Return r.
Proof.
  intros Htruthy Hunres.
  assert (E : offsets window page element relativeTo scale
              = Throw invalid_relativeTo).
  { unfold offsets. rewrite Htruthy.
    destruct (resolve_relation (nodes page element) relativeTo)
      as [| relation |]; try reflexivity.
    now destruct (Hunres relation). }
  split; [exact E | intros r; rewrite E; discriminate].
Qed.

Lemma offsets_invalid_reference_throws_witness :
  offsets viewport_400 (page_of (box 1 1 1 1) (box 0 0 10 10)) 0%nat
          (RelBoolean true) 1 = Throw invalid_relativeTo
  /\ forall r, offsets viewport_400 (page_of (box 1 1 1 1) (box 0 0 10 10))
                       0%nat (RelBoolean true) 1 <> Return r.
Proof.
  apply (offsets_invalid_reference_throws viewport_400
           (page_of (box 1 1 1 1) (box 0 0 10 10)) 0%nat (RelBoolean true) 1).
  - reflexivity.
  - intros relation. cbn. discriminate.
Defined.

(** ** The style applier *)

(** A number is never rendered as the empty string. *)
Lemma string_of_Z_nonempty (n : Z) : string_of_Z n <> ""%string.
Proof.
  unfold string_of_Z, NilZero.string_of_int.
  destruct (Z.to_int n) as [d | d].
  - unfold NilZero.string_of_uint. destruct d; discriminate.
  - discriminate.
Qed.

(** The guard of [style] lets every number through, zero included. *)
Lemma style_val_number_truthy (n : Z) : truthy (style_val (VNumber n)) = true.
Proof.
  unfold style_val.
  destruct (0 <? n); cbn [truthy]; apply negb_true_iff, String.eqb_neq.
  - pose proof (string_of_Z_nonempty n) as H.
    destruct (string_of_Z n); [contradiction | discriminate].
  - apply string_of_Z_nonempty.
Qed.

(** What [style] stores for a number is the number, whatever its sign: the
    string with the pixel unit only feeds the guard. *)
Lemma style_entry_number (element : Ref) (page : Page) (key : string) (n : Z) :
  get_prop key
    (inlineStyle (nodes (style_entry element page (key, VNumber n)) element))
  = Some (VNumber n).
Proof.
  unfold style_entry. rewrite style_val_number_truthy.
  cbn [update_node nodes]. rewrite Nat.eqb_refl. cbn [with_inlineStyle inlineStyle].
  induction (inlineStyle (nodes page element)) as [| [k w] rest IH]; cbn.
  - now rewrite String.eqb_refl.
  - destruct (String.eqb k key) eqn:E; cbn; rewrite E; [reflexivity | exact IH].
Qed.

(** C7 at [{ left: 5 }]: the element's style receives the number 5, not the
    string "5px"; a falsy string is skipped and zero is written. *)
Theorem style_positive_number_unsuffixed :
  inlineStyle (nodes (style 0%nat [("left"%string, VNumber 5)] false
                        centering_page) 0%nat)
  = [("left"%string, VNumber 5)]
  /\ style_val (VNumber 5) = VString "5px"
  /\ inlineStyle (nodes (style 0%nat [("right"%string, VString "");
                                      ("top"%string, VNumber 0)] false
                           centering_page) 0%nat)
     = [("top"%string, VNumber 0)].
Proof. repeat split. Qed.

(** ** The placement engine *)

(** C8: when the element or the anchor is missing, [popup] returns normally,
    leaves every node as it was and logs one warning. *)
Theorem popup_missing_target_noop
    (window : Window) (options : PopupOptions) (page : Page) :
  element options = None \/ parent options = None ->
  exists page',
    popup window options page = Return page'
    /\ nodes page' = nodes page
    /\ console page' = console page ++ [popup_warning].
Proof.
  intros Hmissing. exists (console_warn popup_warning page).
  split; [| split; reflexivity].
  unfold popup.
  destruct (element options) as [e |], (parent options) as [p |];
    try reflexivity.
  destruct Hmissing; discriminate.
Qed.

Lemma popup_missing_target_noop_witness :
  exists page',
    popup viewport_400
          {| element := None; parent := Some 1%nat; xDir := None; yDir := None;
             scale := None; swap := None; space := None |}
          centering_page = Return page'
    /\ nodes page' = nodes centering_page
    /\ console page' = console centering_page ++ [popup_warning].
Proof.
  apply (popup_missing_target_noop viewport_400
           {| element := None; parent := Some 1%nat; xDir := None;
              yDir := None; scale := None; swap := None; space := None |}
           centering_page).
  left. reflexivity.
Defined.

(** C2 at the swap scenario: the overflow test [right + elWidth < 0] is
    [300 + 150 < 0], which is false; the popup stays before the anchor with
    [right = "400px"], a right margin and the class [x-before]. *)
Theorem popup_before_swap_actual :
  exists f page',
    placement viewport_400 (options_of (Some before) None (Some true) None)
              0%nat 1%nat swap_page = Return f
    /\ popup viewport_400 (options_of (Some before) None (Some true) None)
             swap_page = Return page'
    /\ offsets viewport_400 swap_page 1%nat (RelBoolean false) 1
       = Return (OffsetRect.mk 0 50 300 230 100 20)
    /\ (300 + 150 <? 0) = false
    /\ get_prop "left" (styles f) = None
    /\ get_prop "marginLeft" (styles f) = None
    /\ get_prop "right" (styles f) = Some (VString "400px")
    /\ get_prop "marginRight" (styles f) = Some (VString "8px")
    /\ classList (nodes page' 0%nat) = ["x-before"; "y-below"]%string.
Proof. do 2 eexists. repeat split; reflexivity. Qed.

(** With element and anchor present, [popup] is the style applier run on the
    patch that [placement] builds, and [placement] always builds one. *)
Lemma placement_returns
    (window : Window) (options : PopupOptions) (e p : Ref) (page : Page) :
  exists f, placement window options e p page = Return f.
Proof. unfold placement, offsets. cbn [truthy_relativeTo]. eexists. reflexivity. Qed.

Lemma popup_present
    (window : Window) (options : PopupOptions) (e p : Ref) (page : Page)
    (f : Frame) :
  element options = Some e -> parent options = Some p ->
  placement window options e p page = Return f ->
  popup window options page = Return (style e (styles f) false (frame_page f)).
Proof. intros He Hp Hf. unfold popup. now rewrite He, Hp, Hf. Qed.

(** Splits on the overflow tests met in the goal. *)
Ltac split_tests :=
  repeat match goal with
         | |- context [if ?b then _ else _] => destruct b
         end.



(** ** Marker classes *)

Lemma classList_add_keeps (c c' : string) (e : HTMLElement) :
  In c (classList e) -> In c (classList (classList_add c' e)).
Proof.
  intros H. unfold classList_add. cbn [classList].
  destruct (existsb (String.eqb c') (classList e)); [exact H |].
  apply in_or_app. now left.
Qed.

Lemma classList_add_in (c : string) (e : HTMLElement) :
  In c (classList (classList_add c e)).
Proof.
  unfold classList_add. cbn [classList].
  destruct (existsb (String.eqb c) (classList e)) eqn:E.
  - apply existsb_exists in E. destruct E as (d & Hin & Heq).
    apply String.eqb_eq in Heq. now subst d.
  - apply in_or_app. right. now left.
Qed.

Lemma update_node_keeps (g : HTMLElement -> HTMLElement) (target r : Ref)
    (page : Page) (c : string) :
  (forall e, In c (classList e) -> In c (classList (g e))) ->
  In c (classList (nodes page r)) ->
  In c (classList (nodes (update_node target g page) r)).
Proof.
  intros Hg H. cbn [update_node nodes].
  destruct (Nat.eqb r target) eqn:E; [| exact H].
  apply Nat.eqb_eq in E. subst r. now apply Hg.
Qed.

Lemma keeps_assign (key v : string) : keeps_classes (assign key v).
Proof. intros f r c H. exact H. Qed.

Lemma keeps_set_tx (v : string) : keeps_classes (set_tx v).
Proof. intros f r c H. exact H. Qed.

Lemma keeps_set_ty (v : string) : keeps_classes (set_ty v).
Proof. intros f r c H. exact H. Qed.

Lemma keeps_assign_transform : keeps_classes assign_transform.
Proof. intros f r c H. exact H. Qed.

Lemma keeps_add_class (e : Ref) (c' : string) : keeps_classes (add_class e c').
Proof.
  intros f r c H. cbn [add_class frame_page].
  apply update_node_keeps; [| exact H].
  intros e0. apply classList_add_keeps.
Qed.

Lemma keeps_seq (s1 s2 : Stmt) :
  keeps_classes s1 -> keeps_classes s2 -> keeps_classes (s1 ;; s2).
Proof. intros H1 H2 f r c H. unfold seq. now apply H2, H1. Qed.

Create HintDb popup.
#[local] Hint Resolve keeps_assign keeps_set_tx keeps_set_ty keeps_add_class
  keeps_seq keeps_assign_transform : popup.

Lemma keeps_horizontal window e l r w cx ew sw sp (d : DirectionX) :
  keeps_classes (horizontal window e l r w cx ew sw sp d).
Proof. destruct d; unfold horizontal; split_tests; auto 10 with popup. Qed.

Lemma keeps_vertical window e t b h cy eh sw sp (d : DirectionY) :
  keeps_classes (vertical window e t b h cy eh sw sp d).
Proof. destruct d; unfold vertical; split_tests; auto 10 with popup. Qed.

#[local] Hint Resolve keeps_horizontal keeps_vertical : popup.

Lemma add_class_in (e : Ref) (c : string) (f : Frame) :
  In c (classList (nodes (frame_page (add_class e c f)) e)).
Proof.
  cbn [add_class frame_page update_node nodes]. rewrite Nat.eqb_refl.
  apply classList_add_in.
Qed.

(** The style applier does not touch class lists. *)
Lemma style_entry_classList (element : Ref) (page : Page)
    (entry : string * Value) (r : Ref) :
  classList (nodes (style_entry element page entry) r)
  = classList (nodes page r).
Proof.
  destruct entry as [key value]. unfold style_entry.
  destruct (truthy (style_val value)); [| reflexivity].
  cbn [update_node nodes]. destruct (Nat.eqb r element) eqn:E; [| reflexivity].
  apply Nat.eqb_eq in E. now subst r.
Qed.

Lemma style_classList (element : Ref) (patch : Props) (reset : bool)
    (page : Page) (r : Ref) :
  classList (nodes (style element patch reset page) r)
  = classList (nodes page r).
Proof.
  unfold style.
  transitivity
    (classList (nodes (if reset
                       then update_node element remove_style_attribute page
                       else page) r)).
  - generalize (if reset then update_node element remove_style_attribute page
                else page).
    induction patch as [| entry rest IH]; intros pg; cbn [fold_left].
    + reflexivity.
    + rewrite IH. apply style_entry_classList.
  - destruct reset; [| reflexivity].
    cbn [update_node nodes]. destruct (Nat.eqb r element) eqn:E; [| reflexivity].
    apply Nat.eqb_eq in E. now subst r.
Qed.

(** Every call of [popup] keeps every class of every node. *)
Lemma popup_classes_grow
    (window : Window) (options : PopupOptions) (page page' : Page) :
  popup window options page = Return page' ->
  forall r c, In c (classList (nodes page r)) ->
              In c (classList (nodes page' r)).
Proof.
  unfold popup.
  destruct (element options) as [e |], (parent options) as [p |];
    try (intros [= <-]; intros r c H; exact H).
  unfold placement, offsets. cbn [truthy_relativeTo].
  intros [= <-] r c H. rewrite style_classList.
  match goal with
  | |- In c (classList (nodes (frame_page (?s ?f0)) r)) =>
      assert (Hs : keeps_classes s) by auto 10 with popup
  end.
  now apply Hs.
Qed.

(** C10: a call of [popup] on a present element and anchor removes no class
    of any node, so the markers of earlier calls are still there after the
    next call; and a call with [yDir = 'below'] that overflows with [swap]
    on adds both [y-below] and [y-above]. *)
Theorem popup_only_adds_classes
    (window : Window) (options : PopupOptions) (page : Page) (e p : Ref) :
  element options = Some e -> parent options = Some p ->
  exists page',
    popup window options page = Return page'
    /\ (forall r c, In c (classList (nodes page r)) ->
                    In c (classList (nodes page' r)))
    /\ (forall window2 options2 page2,
           popup window2 options2 page' = Return page2 ->
           forall r c, In c (classList (nodes page' r)) ->
                       In c (classList (nodes page2 r)))
    /\ (or_default below (yDir options) = below ->
        or_default true (swap options) = true ->
        ScaledDOMRect.top
          (scaledBoundingClientRect (nodes page p)
             (or_default 1%Q (scale options)))
        + ScaledDOMRect.height
            (scaledBoundingClientRect (nodes page e)
               (or_default 1%Q (scale options)))
        > innerHeight window ->
        In "y-below"%string (classList (nodes page' e))
        /\ In "y-above"%string (classList (nodes page' e))).
Proof.
  intros He Hp.
  destruct (placement_returns window options e p page) as [f Hf].
  pose proof (popup_present window options e p page f He Hp Hf) as Hpop.
  eexists. split; [exact Hpop |].
  split; [now apply popup_classes_grow with (1 := Hpop) |].
  split; [intros w2 o2 p2 H2; now apply popup_classes_grow with (1 := H2) |].
  intros Hy Hsw Hover. rewrite !style_classList.
  revert Hf. unfold placement, offsets. cbn [truthy_relativeTo].
  rewrite Hy, Hsw. intros [= <-].
  rect_simpl.
  apply Z.gtb_gt in Hover.
  unfold vertical. rewrite Hover. unfold seq. split.
  - apply keeps_assign_transform, keeps_add_class, keeps_assign.
    apply add_class_in.
  - apply keeps_assign_transform. apply add_class_in.
Qed.

Lemma popup_only_adds_classes_witness :
  exists page',
    popup viewport_400 (options_of None (Some below) (Some true) None)
          low_anchor_page = Return page'
    /\ In "y-below"%string (classList (nodes page' 0%nat))
    /\ In "y-above"%string (classList (nodes page' 0%nat)).
Proof.
  destruct (popup_only_adds_classes viewport_400
              (options_of None (Some below) (Some true) None)
              low_anchor_page 0%nat 1%nat eq_refl eq_refl)
    as (page' & Hpop & _ & _ & Hbelow).
  exists page'. split; [exact Hpop |].
  apply Hbelow; reflexivity.
Defined.

(** Two calls in a row, first before and then after the anchor, leave the
    element with both [x-before] and [x-after]. *)
Example popup_contradictory_markers_accumulate :
  exists page1 page2,
    popup viewport_400 (options_of (Some before) None None None)
          centering_page = Return page1
    /\ popup viewport_400 (options_of (Some after) None None None) page1
       = Return page2
    /\ classList (nodes page2 0%nat)
       = ["x-before"; "y-below"; "x-after"]%string.
Proof. do 2 eexists. repeat split. Qed.


Lemma adds_here (e : Ref) (c : string) : adds_class e c (add_class e c).
Proof. intros f. apply add_class_in. Qed.

Lemma adds_seq_r (e : Ref) (c : string) (s1 s2 : Stmt) :
  adds_class e c s2 -> adds_class e c (s1 ;; s2).
Proof. intros H f. unfold seq. apply H. Qed.

Lemma adds_seq_l (e : Ref) (c : string) (s1 s2 : Stmt) :
  adds_class e c s1 -> keeps_classes s2 -> adds_class e c (s1 ;; s2).
Proof. intros H1 H2 f. unfold seq. apply H2, H1. Qed.

#[local] Hint Resolve adds_here adds_seq_r adds_seq_l : popup.

(** Proves that the statement run by the goal adds the class asked for. *)
Ltac class_added :=
  match goal with
  | |- In ?c (classList (nodes (frame_page (?s ?f0)) ?e)) =>
      let H := fresh "H" in
      assert (H : adds_class e c s) by eauto 20 with popup;
      apply H
  end.

(** ** Placement between, over the imported measurement *)

(** [popup] is [popup_with] at the measurements of element.ts. *)
Lemma popup_with_element_ts
    (window : Window) (options : PopupOptions) (page : Page) :
  popup_with offsets_of_element_ts scaledBoundingClientRect window options page
  = popup window options page.
Proof.
  unfold popup_with, popup.
  destruct (element options) as [e |], (parent options) as [p |];
    reflexivity.
Qed.

(** With a centre that clears both edges, between places the element at the
    centre and shifts it back by half its width. *)
Lemma horizontal_between_centred window e l r w (c : Z) ew sw sp :
  num_lt (num_sub (Num (inject_Z c)) (half ew)) (Num 0) = false ->
  num_gt (num_add (Num (inject_Z c)) (half ew))
         (Num (inject_Z (innerWidth window))) = false ->
  horizontal window e l r w (Some c) ew sw sp betweenX
  = (assign "left" (string_of_Z c ++ "px") ;;
     set_tx "-50%" ;;
     add_class e "x-between").
Proof.
  intros Hleft Hright. unfold horizontal. cbn [ToNumber ToString].
  now rewrite Hleft, Hright.
Qed.

(** With a centre less than half the width from the left edge, between
    clamps the element to the left edge of the screen. *)
Lemma horizontal_between_clamped_left window e l r w (c : Z) ew sw sp :
  num_lt (num_sub (Num (inject_Z c)) (half ew)) (Num 0) = true ->
  horizontal window e l r w (Some c) ew sw sp betweenX
  = (assign "left" (px sp) ;;
     assign "maxWidth" (px (innerWidth window - sp * 2)) ;;
     add_class e "x-screen-left").
Proof.
  intros Hleft. unfold horizontal. cbn [ToNumber].
  now rewrite Hleft.
Qed.

(** The class the horizontal statement adds is still there after the
    vertical statement and the transform. *)
Lemma horizontal_class_stays (e : Ref) (c : string) (h v : Stmt) (f0 : Frame) :
  adds_class e c h -> keeps_classes v ->
  In c (classList (nodes (frame_page ((h ;; v ;; assign_transform) f0)) e)).
Proof.
  intros Hh Hv.
  apply (adds_seq_l e c (h ;; v) assign_transform);
    [| apply keeps_assign_transform].
  now apply adds_seq_l.
Qed.

(** C1: for a call with [xDir = 'between'] in a viewport 400 wide, when the
    measurement of the anchor reports its horizontal centre at 200 and the
    element's scaled width is 50, the patch sets [left] to "200px", the
    horizontal component of the translation is "-50%", and the element gets
    the class [x-between]. *)
Theorem popup_between_centering
    (rectangle_offsets :
       Window -> Page -> Ref -> RelativeTo -> Q -> Completion MeasuredRect)
    (rectangle_scaledBoundingClientRect : HTMLElement -> Q -> ScaledDOMRect.t)
    (window : Window) (options : PopupOptions) (page : Page) (e p : Ref)
    (m : MeasuredRect) :
  element options = Some e -> parent options = Some p ->
  or_default betweenX (xDir options) = betweenX ->
  rectangle_offsets window page p (RelBoolean false)
                    (or_default 1%Q (scale options)) = Return m ->
  centerX m = Some 200 ->
  ScaledDOMRect.width
    (rectangle_scaledBoundingClientRect (nodes page e)
       (or_default 1%Q (scale options))) = 50 ->
  innerWidth window = 400 ->
  exists f page',
    placement_with rectangle_offsets rectangle_scaledBoundingClientRect
                   window options e p page = Return f
    /\ popup_with rectangle_offsets rectangle_scaledBoundingClientRect
                  window options page = Return page'
    /\ get_prop "left" (styles f) = Some (VString "200px")
    /\ get_prop "right" (styles f) = None
    /\ tx f = "-50%"%string
    /\ get_prop "transform" (styles f)
       = Some (VString ("translate3d(-50%, " ++ ty f ++ ", 0)"))
    /\ In "x-between"%string (classList (nodes page' e)).
Proof.
  intros He Hp Hx Hm Hc Hw Hiw.
  unfold popup_with, placement_with. cbv zeta.
  rewrite He, Hp, Hm, Hx, Hc, Hw.
  rewrite horizontal_between_centred by (rewrite ?Hiw; reflexivity).
  replace (string_of_Z 200 ++ "px")%string with "200px"%string
    by (vm_compute; reflexivity).
  do 2 eexists. split; [reflexivity |]. split; [reflexivity |].
  rewrite style_classList.
  repeat match goal with |- _ /\ _ => split end;
    [ .. | apply horizontal_class_stays;
             [ apply adds_seq_r, adds_here | apply keeps_vertical ] ];
    destruct (or_default below (yDir options));
    unfold vertical, seq; split_tests; vm_compute; reflexivity.
Qed.

Lemma popup_between_centering_witness :
  exists f page',
    placement_with offsets_with_centre scaledBoundingClientRect viewport_400
                   (options_of (Some betweenX) None None None)
                   0%nat 1%nat centering_page = Return f
    /\ popup_with offsets_with_centre scaledBoundingClientRect viewport_400
                  (options_of (Some betweenX) None None None) centering_page
       = Return page'
    /\ get_prop "left" (styles f) = Some (VString "200px")
    /\ get_prop "right" (styles f) = None
    /\ tx f = "-50%"%string
    /\ get_prop "transform" (styles f)
       = Some (VString ("translate3d(-50%, " ++ ty f ++ ", 0)"))
    /\ In "x-between"%string (classList (nodes page' 0%nat)).
Proof.
  eapply (popup_between_centering offsets_with_centre
            scaledBoundingClientRect viewport_400
            (options_of (Some betweenX) None None None) centering_page
            0%nat 1%nat); reflexivity.
Defined.

(** C3: for a call with [xDir = 'between'] and [space = 8] in a viewport 400
    wide, when the measurement of the anchor reports its horizontal centre
    at 10 and the element's scaled width is 50, the left overflow test fires
    and the patch sets [left] to "8px" and [maxWidth] to "384px", and the
    element gets the class [x-screen-left]. *)
Theorem popup_between_clamps_left
    (rectangle_offsets :
       Window -> Page -> Ref -> RelativeTo -> Q -> Completion MeasuredRect)
    (rectangle_scaledBoundingClientRect : HTMLElement -> Q -> ScaledDOMRect.t)
    (window : Window) (options : PopupOptions) (page : Page) (e p : Ref)
    (m : MeasuredRect) :
  element options = Some e -> parent options = Some p ->
  or_default betweenX (xDir options) = betweenX ->
  or_default 8 (space options) = 8 ->
  rectangle_offsets window page p (RelBoolean false)
                    (or_default 1%Q (scale options)) = Return m ->
  centerX m = Some 10 ->
  ScaledDOMRect.width
    (rectangle_scaledBoundingClientRect (nodes page e)
       (or_default 1%Q (scale options))) = 50 ->
  innerWidth window = 400 ->
  exists f page',
    placement_with rectangle_offsets rectangle_scaledBoundingClientRect
                   window options e p page = Return f
    /\ popup_with rectangle_offsets rectangle_scaledBoundingClientRect
                  window options page = Return page'
    /\ num_lt (num_sub (ToNumber (centerX m)) (half 50)) (Num 0) = true
    /\ get_prop "left" (styles f) = Some (VString "8px")
    /\ get_prop "right" (styles f) = None
    /\ get_prop "maxWidth" (styles f) = Some (VString "384px")
    /\ In "x-screen-left"%string (classList (nodes page' e)).
Proof.
  intros He Hp Hx Hsp Hm Hc Hw Hiw.
  unfold popup_with, placement_with. cbv zeta.
  rewrite He, Hp, Hm, Hx, Hsp, Hc, Hw.
  rewrite horizontal_between_clamped_left by reflexivity. rewrite Hiw.
  replace (px 8) with "8px"%string by (vm_compute; reflexivity).
  replace (px (400 - 8 * 2)) with "384px"%string by (vm_compute; reflexivity).
  do 2 eexists. split; [reflexivity |]. split; [reflexivity |].
  rewrite style_classList.
  repeat match goal with |- _ /\ _ => split end;
    [ vm_compute; reflexivity | ..
    | apply horizontal_class_stays;
        [ apply adds_seq_r, adds_here | apply keeps_vertical ] ];
    destruct (or_default below (yDir options));
    unfold vertical, seq; split_tests; vm_compute; reflexivity.
Qed.

Lemma popup_between_clamps_left_witness :
  exists f page',
    placement_with offsets_with_centre scaledBoundingClientRect viewport_400
                   (options_of (Some betweenX) None None (Some 8))
                   0%nat 1%nat clamp_page = Return f
    /\ popup_with offsets_with_centre scaledBoundingClientRect viewport_400
                  (options_of (Some betweenX) None None (Some 8)) clamp_page
       = Return page'
    /\ get_prop "left" (styles f) = Some (VString "8px")
    /\ get_prop "right" (styles f) = None
    /\ get_prop "maxWidth" (styles f) = Some (VString "384px")
    /\ In "x-screen-left"%string (classList (nodes page' 0%nat)).
Proof.
  edestruct (popup_between_clamps_left offsets_with_centre
               scaledBoundingClientRect viewport_400
               (options_of (Some betweenX) None None (Some 8)) clamp_page
               0%nat 1%nat)
    as (f & page' & Hf & Hpop & _ & Hrest); try reflexivity.
  exists f, page'. split; [exact Hf |]. split; [exact Hpop | exact Hrest].
Defined.

(** * Further properties of the code *)

(** ** scaleRect and scaledClientRects *)

Lemma Math_round_multiple (n : Z) (scale : Q) :
  ~ (scale == 0)%Q -> Math_round (inject_Z n * scale / scale) = n.
Proof.
  intros Hs. rewrite (Math_round_comp _ (inject_Z n)).
  - apply Math_round_Z.
  - field. exact Hs.
Qed.

(** X2: a box whose numbers are whole multiples of the scale is scaled
    without any rounding; at scale 1 a box of whole pixels comes back
    unchanged. *)
Theorem scaleRect_exact_on_multiples (scale : Q) (l t r b w h x y : Z) :
  ~ (scale == 0)%Q ->
  scaleRect (multiples_box scale l t r b w h x y) scale
  = {| ScaledDOMRect.left := l; ScaledDOMRect.top := t;
       ScaledDOMRect.right := r; ScaledDOMRect.bottom := b;
       ScaledDOMRect.width := w; ScaledDOMRect.height := h;
       ScaledDOMRect.x := x; ScaledDOMRect.y := y |}.
Proof.
  intros Hs. unfold scaleRect, multiples_box.
  cbn [DOMRect.left DOMRect.top DOMRect.right DOMRect.bottom DOMRect.width
       DOMRect.height DOMRect.x DOMRect.y].
  now rewrite !Math_round_multiple.
Qed.

Lemma scaleRect_exact_on_multiples_witness :
  scaleRect (multiples_box (3 # 2) 2 4 10 9 8 5 2 4) (3 # 2)
  = {| ScaledDOMRect.left := 2; ScaledDOMRect.top := 4;
       ScaledDOMRect.right := 10; ScaledDOMRect.bottom := 9;
       ScaledDOMRect.width := 8; ScaledDOMRect.height := 5;
       ScaledDOMRect.x := 2; ScaledDOMRect.y := 4 |}.
Proof.
  apply (scaleRect_exact_on_multiples (3 # 2) 2 4 10 9 8 5 2 4).
  intros H. discriminate H.
Defined.

Lemma Math_round_monotone (p q : Q) :
  (p <= q)%Q -> Math_round p <= Math_round q.
Proof.
  intros H. unfold Math_round. apply Qfloor_resp_le. lra.
Qed.

Lemma Qdiv_monotone (p q scale : Q) :
  (0 < scale)%Q -> (p <= q)%Q -> (p / scale <= q / scale)%Q.
Proof.
  intros Hs H. unfold Qdiv. apply Qmult_le_compat_r; [exact H |].
  apply Qlt_le_weak, Qinv_lt_0_compat, Hs.
Qed.

Lemma Math_round_scaled_nonneg (q scale : Q) :
  (0 < scale)%Q -> (0 <= q)%Q -> 0 <= Math_round (q / scale).
Proof.
  intros Hs H.
  change 0 with (Math_round 0) at 1.
  apply Math_round_monotone. unfold Qdiv.
  apply Qmult_le_0_compat; [exact H |].
  apply Qlt_le_weak, Qinv_lt_0_compat, Hs.
Qed.

(** X3: scaling by a positive scale keeps order and sign: a left edge not
    right of the right edge stays so, likewise top and bottom, and a
    non-negative width or height stays non-negative. *)
Theorem scaleRect_keeps_order (rect : DOMRect.t) (scale : Q) :
  (0 < scale)%Q ->
  ((DOMRect.left rect <= DOMRect.right rect)%Q ->
   ScaledDOMRect.left (scaleRect rect scale)
   <= ScaledDOMRect.right (scaleRect rect scale))
  /\ ((DOMRect.top rect <= DOMRect.bottom rect)%Q ->
      ScaledDOMRect.top (scaleRect rect scale)
      <= ScaledDOMRect.bottom (scaleRect rect scale))
  /\ ((0 <= DOMRect.width rect)%Q ->
      0 <= ScaledDOMRect.width (scaleRect rect scale))
  /\ ((0 <= DOMRect.height rect)%Q ->
      0 <= ScaledDOMRect.height (scaleRect rect scale)).
Proof.
  intros Hs. rect_simpl.
  repeat split; intros H;
    first [ apply Math_round_monotone, Qdiv_monotone; assumption
          | apply Math_round_scaled_nonneg; assumption ].
Qed.

Lemma scaleRect_keeps_order_witness :
  ScaledDOMRect.left (scaleRect (box 1 1 5 7) 2)
  <= ScaledDOMRect.right (scaleRect (box 1 1 5 7) 2)
  /\ ScaledDOMRect.top (scaleRect (box 1 1 5 7) 2)
     <= ScaledDOMRect.bottom (scaleRect (box 1 1 5 7) 2)
  /\ 0 <= ScaledDOMRect.width (scaleRect (box 1 1 5 7) 2)
  /\ 0 <= ScaledDOMRect.height (scaleRect (box 1 1 5 7) 2).
Proof.
  destruct (scaleRect_keeps_order (box 1 1 5 7) 2 eq_refl)
    as (Hx & Hy & Hw & Hh).
  repeat split; [apply Hx | apply Hy | apply Hw | apply Hh];
    vm_compute; discriminate.
Defined.

Lemma fold_left_push {A B : Type} (g : A -> B) (l : list A) (acc : list B) :
  fold_left (fun scaled a => scaled ++ [g a]) l acc = acc ++ map g l.
Proof.
  revert acc. induction l as [| a l IH]; intros acc; cbn [fold_left map].
  - now rewrite app_nil_r.
  - rewrite IH, <- app_assoc. reflexivity.
Qed.

(** X4: [scaledClientRects] returns one scaled box for each fragment box of
    the element, in the same order, each being [scaleRect] of its fragment;
    an element without fragment boxes gives the empty list. *)
Theorem scaledClientRects_pointwise (element : HTMLElement) (scale : Q) :
  scaledClientRects element scale
  = map (fun rect => scaleRect rect scale) (clientRects element)
  /\ List.length (scaledClientRects element scale)
     = List.length (clientRects element)
  /\ (forall i rect,
        nth_error (clientRects element) i = Some rect ->
        nth_error (scaledClientRects element scale) i
        = Some (scaleRect rect scale))
  /\ (clientRects element = [] -> scaledClientRects element scale = []).
Proof.
  assert (E : scaledClientRects element scale
              = map (fun rect => scaleRect rect scale) (clientRects element)).
  { unfold scaledClientRects. now rewrite fold_left_push. }
  rewrite E. repeat split.
  - apply length_map.
  - intros i rect H. rewrite nth_error_map, H. reflexivity.
  - intros ->. reflexivity.
Qed.

(** ** offsets *)

(** X5: measured against a reference element, the result has no rounding
    slack: [left] and [top] are the differences of the scaled edges, and
    [left + width + right] and [top + height + bottom] are exactly the scaled
    width and height of the reference. *)
Theorem offsets_relative_exact
    (window : Window) (page : Page) (element relation : Ref)
    (relativeTo : RelativeTo) (scale : Q) :
  (0 < scale)%Q ->
  truthy_relativeTo relativeTo = true ->
  resolve_relation (nodes page element) relativeTo = Boundable relation ->
  let e := scaledBoundingClientRect (nodes page element) scale in
  let ref := scaledBoundingClientRect (nodes page relation) scale in
  exists r,
    offsets window page element relativeTo scale = Return r
    /\ OffsetRect.width r = ScaledDOMRect.width e
    /\ OffsetRect.height r = ScaledDOMRect.height e
    /\ OffsetRect.left r = ScaledDOMRect.left e - ScaledDOMRect.left ref
    /\ OffsetRect.top r = ScaledDOMRect.top e - ScaledDOMRect.top ref
    /\ OffsetRect.left r + OffsetRect.width r + OffsetRect.right r
       = ScaledDOMRect.width ref
    /\ OffsetRect.top r + OffsetRect.height r + OffsetRect.bottom r
       = ScaledDOMRect.height ref.
Proof.
  intros _ Htruthy Hrel e ref. unfold offsets. rewrite Htruthy, Hrel.
  eexists. split; [reflexivity |]. subst e ref.
  cbn [OffsetRect.left OffsetRect.top OffsetRect.right OffsetRect.bottom
       OffsetRect.width OffsetRect.height].
  rewrite !Math_round_Z_sub, <- !inject_Z_plus, !Math_round_Z_sub.
  repeat split; lia.
Qed.

Lemma offsets_relative_exact_witness :
  exists r,
    offsets viewport_400 (page_of (box 13 7 31 9) (box 4 2 77 55)) 0%nat
            (RelElement 1%nat) 2 = Return r
    /\ OffsetRect.left r + OffsetRect.width r + OffsetRect.right r
       = ScaledDOMRect.width (scaleRect (box 4 2 77 55) 2)
    /\ OffsetRect.top r + OffsetRect.height r + OffsetRect.bottom r
       = ScaledDOMRect.height (scaleRect (box 4 2 77 55) 2).
Proof.
  destruct (offsets_relative_exact viewport_400
              (page_of (box 13 7 31 9) (box 4 2 77 55)) 0%nat 1%nat
              (RelElement 1%nat) 2 eq_refl eq_refl eq_refl)
    as (r & Hr & _ & _ & _ & _ & Hx & Hy).
  exists r. split; [exact Hr |]. split; [exact Hx | exact Hy].
Defined.

(** X6: an element measured against itself is at distance zero from all
    four sides, with its own scaled size. *)
Theorem offsets_relative_to_itself
    (window : Window) (page : Page) (element : Ref) (scale : Q) :
  (0 < scale)%Q ->
  offsets window page element (RelElement element) scale
  = Return
      {| OffsetRect.left := 0; OffsetRect.top := 0;
         OffsetRect.right := 0; OffsetRect.bottom := 0;
         OffsetRect.width :=
           ScaledDOMRect.width
             (scaledBoundingClientRect (nodes page element) scale);
         OffsetRect.height :=
           ScaledDOMRect.height
             (scaledBoundingClientRect (nodes page element) scale) |}.
Proof.
  intros _. unfold offsets.
  cbn [truthy_relativeTo resolve_relation].
  rewrite !Math_round_Z_sub, !Z.sub_diag.
  rewrite <- !inject_Z_plus, !Math_round_Z_sub.
  f_equal. f_equal; lia.
Qed.

Lemma offsets_relative_to_itself_witness :
  offsets viewport_400 (page_of (box 13 7 31 9) (box 4 2 77 55)) 0%nat
          (RelElement 0%nat) 2
  = Return
      {| OffsetRect.left := 0; OffsetRect.top := 0;
         OffsetRect.right := 0; OffsetRect.bottom := 0;
         OffsetRect.width :=
           ScaledDOMRect.width
             (scaledBoundingClientRect
                (nodes (page_of (box 13 7 31 9) (box 4 2 77 55)) 0%nat) 2);
         OffsetRect.height :=
           ScaledDOMRect.height
             (scaledBoundingClientRect
                (nodes (page_of (box 13 7 31 9) (box 4 2 77 55)) 0%nat) 2) |}.
Proof.
  apply (offsets_relative_to_itself viewport_400
           (page_of (box 13 7 31 9) (box 4 2 77 55)) 0%nat 2).
  reflexivity.
Defined.

(** X7: [offsets] returns a rectangle exactly when [relativeTo] is falsy or
    resolves to an element, and throws in every other case: [true] on an
    element without a parent, or a truthy value that is not an element. *)
Theorem offsets_returns_iff
    (window : Window) (page : Page) (element : Ref) (relativeTo : RelativeTo)
    (scale : Q) :
  ((exists r, offsets window page element relativeTo scale = Return r)
   <-> (truthy_relativeTo relativeTo = false
        \/ exists relation,
             resolve_relation (nodes page element) relativeTo
             = Boundable relation))
  /\ ((exists err, offsets window page element relativeTo scale = Throw err)
      <-> (truthy_relativeTo relativeTo = true
           /\ forall relation,
                resolve_relation (nodes page element) relativeTo
                <> Boundable relation)).
Proof.
  unfold offsets.
  destruct (truthy_relativeTo relativeTo);
    destruct (resolve_relation (nodes page element) relativeTo)
      as [| relation |];
    repeat match goal with
           | |- _ /\ _ => split
           | |- _ <-> _ => split; intros ?
           end;
    repeat match goal with
           | H : exists _, _ |- _ => destruct H
           | H : _ /\ _ |- _ => destruct H
           | H : _ \/ _ |- _ => destruct H
           end;
    try discriminate;
    try (eexists; reflexivity);
    try (left; reflexivity);
    try (right; eexists; reflexivity);
    try (split; [reflexivity | intros ?; discriminate]);
    try (exfalso;
         match goal with
         | H : forall _, _ <> _ |- _ => eapply H; reflexivity
         end).
Qed.

Lemma Math_round_div_1 (z : Z) : Math_round (inject_Z z / 1) = z.
Proof.
  rewrite (Math_round_comp _ (inject_Z z)).
  - apply Math_round_Z.
  - field.
Qed.

(** X8: at scale 1, an element whose box lies on whole pixels is measured
    against the viewport without rounding: [left] and [top] are its
    position, [right] and [bottom] what is left of the viewport beyond its
    far edges, so that the three horizontal numbers add up to [innerWidth]
    and the three vertical ones to [innerHeight]. *)
Theorem offsets_viewport_whole_pixels
    (window : Window) (page : Page) (element : Ref) (relativeTo : RelativeTo)
    (l t w h : Z) :
  truthy_relativeTo relativeTo = false ->
  boundingClientRect (nodes page element) = box l t w h ->
  offsets window page element relativeTo 1
  = Return
      {| OffsetRect.left := l; OffsetRect.top := t;
         OffsetRect.right := innerWidth window - (l + w);
         OffsetRect.bottom := innerHeight window - (t + h);
         OffsetRect.width := w; OffsetRect.height := h |}.
Proof.
  intros Hfalsy Hbox. unfold offsets. rewrite Hfalsy.
  unfold scaledBoundingClientRect, scaleRect. rewrite Hbox.
  cbn [box DOMRect.left DOMRect.top DOMRect.right DOMRect.bottom
       DOMRect.width DOMRect.height
       ScaledDOMRect.left ScaledDOMRect.top ScaledDOMRect.right
       ScaledDOMRect.bottom ScaledDOMRect.width ScaledDOMRect.height].
  rewrite !Math_round_sub_Z, !Math_round_div_1. reflexivity.
Qed.

Lemma offsets_viewport_whole_pixels_witness :
  offsets viewport_400 (page_of (box 13 7 31 9) (box 4 2 77 55)) 0%nat
          (RelBoolean false) 1
  = Return
      {| OffsetRect.left := 13; OffsetRect.top := 7;
         OffsetRect.right := 400 - (13 + 31);
         OffsetRect.bottom := 300 - (7 + 9);
         OffsetRect.width := 31; OffsetRect.height := 9 |}.
Proof.
  apply (offsets_viewport_whole_pixels viewport_400
           (page_of (box 13 7 31 9) (box 4 2 77 55)) 0%nat
           (RelBoolean false) 13 7 31 9); reflexivity.
Defined.

(** ** style *)

Lemma style_entry_fields (element : Ref) (page : Page)
    (entry : string * Value) :
  console (style_entry element page entry) = console page
  /\ (forall r, parentElement (nodes (style_entry element page entry) r)
                = parentElement (nodes page r))
  /\ (forall r, classList (nodes (style_entry element page entry) r)
                = classList (nodes page r))
  /\ (forall r, r <> element ->
                inlineStyle (nodes (style_entry element page entry) r)
                = inlineStyle (nodes page r)).
Proof.
  destruct entry as [k v]. unfold style_entry.
  destruct (truthy (style_val v)); [| repeat split].
  cbn [update_node nodes console].
  repeat split; intros r; destruct (Nat.eqb r element) eqn:E;
    try reflexivity.
  - apply Nat.eqb_eq in E. now subst r.
  - apply Nat.eqb_eq in E. now subst r.
  - intros Hne. apply Nat.eqb_eq in E. contradiction.
Qed.

Lemma style_fields (element : Ref) (patch : Props) (reset : bool)
    (page : Page) :
  console (style element patch reset page) = console page
  /\ (forall r, parentElement (nodes (style element patch reset page) r)
                = parentElement (nodes page r))
  /\ (forall r, classList (nodes (style element patch reset page) r)
                = classList (nodes page r))
  /\ (forall r, r <> element ->
                inlineStyle (nodes (style element patch reset page) r)
                = inlineStyle (nodes page r)).
Proof.
  unfold style.
  assert (Hreset :
    let pg := if reset then update_node element remove_style_attribute page
              else page in
    console pg = console page
    /\ (forall r, parentElement (nodes pg r) = parentElement (nodes page r))
    /\ (forall r, classList (nodes pg r) = classList (nodes page r))
    /\ (forall r, r <> element ->
                  inlineStyle (nodes pg r) = inlineStyle (nodes page r))).
  { destruct reset; [| repeat split].
    cbn [update_node nodes console].
    repeat split; intros r; destruct (Nat.eqb r element) eqn:E;
      try reflexivity.
    - apply Nat.eqb_eq in E. now subst r.
    - apply Nat.eqb_eq in E. now subst r.
    - intros Hne. apply Nat.eqb_eq in E. contradiction. }
  cbv zeta in Hreset. revert Hreset.
  generalize (if reset then update_node element remove_style_attribute page
              else page).
  induction patch as [| entry rest IH]; intros pg Hpg; cbn [fold_left].
  - exact Hpg.
  - apply IH.
    destruct (style_entry_fields element pg entry) as (Hc & Hp & Hl & Hi).
    destruct Hpg as (Hc' & Hp' & Hl' & Hi').
    repeat split.
    + congruence.
    + intros r. now rewrite Hp.
    + intros r. now rewrite Hl.
    + intros r Hne. rewrite Hi by exact Hne. now apply Hi'.
Qed.

(** X9: of what a program can read back exactly, [style] writes to the
    inline style of its element and to nothing else: the console, the parent
    and the classes of every node, and the inline style of every other node,
    are as before, with or without [reset]. *)
Theorem style_touches_inline_style_only (element : Ref) (patch : Props)
    (reset : bool) (page : Page) :
  console (style element patch reset page) = console page
  /\ (forall r, parentElement (nodes (style element patch reset page) r)
                = parentElement (nodes page r))
  /\ (forall r, classList (nodes (style element patch reset page) r)
                = classList (nodes page r))
  /\ (forall r, r <> element ->
                inlineStyle (nodes (style element patch reset page) r)
                = inlineStyle (nodes page r)).
Proof. apply style_fields. Qed.

Lemma skipped_fails_guard (v : Value) :
  skipped v = true -> truthy (style_val v) = false.
Proof.
  destruct v as [| | b | n | s]; cbn; try reflexivity; try discriminate.
  - intros H. now destruct b.
  - intros ->. reflexivity.
Qed.

(** X11: entries whose value is [undefined], [null], [false] or the empty
    string are passed over: a patch made of such entries leaves the page as
    it is, so [style] without [reset] cannot take a property away. *)
Theorem style_skips_empty_values (element : Ref) (patch : Props) (page : Page) :
  Forall (fun entry => skipped (snd entry) = true) patch ->
  style element patch false page = page.
Proof.
  unfold style. intros H.
  induction H as [| [k v] rest Hv _ IH]; cbn [fold_left].
  - reflexivity.
  - unfold style_entry at 2. cbn [snd] in Hv.
    now rewrite (skipped_fails_guard v Hv).
Qed.

Lemma style_skips_empty_values_witness :
  style 0%nat [("color"%string, VString ""); ("left"%string, VUndefined);
               ("top"%string, VNull); ("right"%string, VBoolean false)]
        false styled_page
  = styled_page.
Proof.
  apply (style_skips_empty_values 0%nat
           [("color"%string, VString ""); ("left"%string, VUndefined);
            ("top"%string, VNull); ("right"%string, VBoolean false)]
           styled_page).
  repeat constructor.
Defined.

(** ** popup: what a call touches *)



Lemma touches_assign (target : Ref) (key v : string) :
  touches_only target (assign key v).
Proof. intros f. repeat split. Qed.

Lemma touches_set_tx (target : Ref) (v : string) :
  touches_only target (set_tx v).
Proof. intros f. repeat split. Qed.

Lemma touches_set_ty (target : Ref) (v : string) :
  touches_only target (set_ty v).
Proof. intros f. repeat split. Qed.

Lemma touches_assign_transform (target : Ref) :
  touches_only target assign_transform.
Proof. intros f. repeat split. Qed.

Lemma touches_add_class (target : Ref) (c : string) :
  touches_only target (add_class target c).
Proof.
  intros f. cbn [add_class frame_page update_node nodes console].
  repeat split; intros r; destruct (Nat.eqb r target) eqn:E;
    try reflexivity.
  - apply Nat.eqb_eq in E. now subst r.
  - apply Nat.eqb_eq in E. now subst r.
  - intros Hne. apply Nat.eqb_eq in E. contradiction.
Qed.

Lemma touches_seq (target : Ref) (s1 s2 : Stmt) :
  touches_only target s1 -> touches_only target s2 ->
  touches_only target (s1 ;; s2).
Proof.
  intros H1 H2 f. unfold seq.
  destruct (H1 f) as (Hc & Hp & Hi & Hl).
  destruct (H2 (s1 f)) as (Hc' & Hp' & Hi' & Hl').
  repeat split.
  - congruence.
  - intros r. now rewrite Hp'.
  - intros r. now rewrite Hi'.
  - intros r Hne. rewrite Hl' by exact Hne. now apply Hl.
Qed.

#[local] Hint Resolve touches_assign touches_set_tx touches_set_ty
  touches_assign_transform touches_add_class touches_seq : popup.

Lemma touches_horizontal window e l r w cx ew sw sp (d : DirectionX) :
  touches_only e (horizontal window e l r w cx ew sw sp d).
Proof. destruct d; unfold horizontal; split_tests; auto 10 with popup. Qed.

Lemma touches_vertical window e t b h cy eh sw sp (d : DirectionY) :
  touches_only e (vertical window e t b h cy eh sw sp d).
Proof. destruct d; unfold vertical; split_tests; auto 10 with popup. Qed.

#[local] Hint Resolve touches_horizontal touches_vertical : popup.

(** X14: of what a program can read back exactly, a call of [popup] with
    element and anchor present writes to the inline style and the classes
    of the element and to nothing else: the console and the parent of every
    node, and the inline style and the classes of every other node (the
    anchor included, when it is another node), are as before. *)
Theorem popup_touches_element_only
    (window : Window) (options : PopupOptions) (page : Page) (e p : Ref) :
  element options = Some e -> parent options = Some p ->
  exists page',
    popup window options page = Return page'
    /\ console page' = console page
    /\ (forall r, parentElement (nodes page' r) = parentElement (nodes page r))
    /\ (forall r, r <> e ->
                  inlineStyle (nodes page' r) = inlineStyle (nodes page r))
    /\ (forall r, r <> e ->
                  classList (nodes page' r) = classList (nodes page r)).
Proof.
  intros He Hp.
  destruct (placement_returns window options e p page) as [f Hf].
  pose proof (popup_present window options e p page f He Hp Hf) as Hpop.
  eexists. split; [exact Hpop |].
  destruct (style_fields e (styles f) false (frame_page f))
    as (Hc & Hpar & Hl & Hi).
  revert Hf. unfold placement, offsets. cbn [truthy_relativeTo].
  intros [= Hf].
  match type of Hf with
  | ?s ?f0 = f =>
      assert (Hs : touches_only e s) by auto 10 with popup;
      destruct (Hs f0) as (Hc' & Hpar' & Hi' & Hl')
  end.
  rewrite Hf in *. cbn [frame_page] in *.
  repeat split.
  - congruence.
  - intros r. now rewrite Hpar.
  - intros r Hne. rewrite Hi by exact Hne. apply Hi'.
  - intros r Hne. rewrite Hl. now apply Hl'.
Qed.

Lemma popup_touches_element_only_witness :
  exists page',
    popup viewport_400 (options_of (Some after) (Some above) None None)
          styled_page = Return page'
    /\ console page' = console styled_page
    /\ (forall r, parentElement (nodes page' r)
                  = parentElement (nodes styled_page r))
    /\ (forall r, r <> 0%nat ->
                  inlineStyle (nodes page' r)
                  = inlineStyle (nodes styled_page r))
    /\ (forall r, r <> 0%nat ->
                  classList (nodes page' r) = classList (nodes styled_page r)).
Proof.
  apply (popup_touches_element_only viewport_400
           (options_of (Some after) (Some above) None None) styled_page
           0%nat 1%nat); reflexivity.
Defined.

(** ** popup: the patch as a function of the geometry *)

Lemma blind_assign (key v : string) : page_blind (assign key v).
Proof. intros f g Hs Hx Hy. cbn. rewrite Hs. auto. Qed.

Lemma blind_set_tx (v : string) : page_blind (set_tx v).
Proof. intros f g Hs Hx Hy. cbn. auto. Qed.

Lemma blind_set_ty (v : string) : page_blind (set_ty v).
Proof. intros f g Hs Hx Hy. cbn. auto. Qed.

Lemma blind_add_class (e : Ref) (c : string) : page_blind (add_class e c).
Proof. intros f g Hs Hx Hy. cbn. auto. Qed.

Lemma blind_assign_transform : page_blind assign_transform.
Proof.
  intros f g Hs Hx Hy. unfold assign_transform, assign.
  cbn [styles tx ty]. rewrite Hs, Hx, Hy. auto.
Qed.

Lemma blind_seq (s1 s2 : Stmt) :
  page_blind s1 -> page_blind s2 -> page_blind (s1 ;; s2).
Proof.
  intros H1 H2 f g Hs Hx Hy. unfold seq.
  destruct (H1 f g Hs Hx Hy) as (Hs' & Hx' & Hy'). now apply H2.
Qed.

#[local] Hint Resolve blind_assign blind_set_tx blind_set_ty blind_add_class
  blind_assign_transform blind_seq : popup.

Lemma blind_horizontal window e l r w cx ew sw sp (d : DirectionX) :
  page_blind (horizontal window e l r w cx ew sw sp d).
Proof. destruct d; unfold horizontal; split_tests; auto 10 with popup. Qed.

Lemma blind_vertical window e t b h cy eh sw sp (d : DirectionY) :
  page_blind (vertical window e t b h cy eh sw sp d).
Proof. destruct d; unfold vertical; split_tests; auto 10 with popup. Qed.

#[local] Hint Resolve blind_horizontal blind_vertical : popup.

(** X15: the patch is a function of the window, the options and the two
    bounding boxes alone: two pages on which the element has the same box
    and the anchor has the same box give the same patch, whatever the
    classes, the inline styles, the console or the other nodes are. *)
Theorem placement_depends_on_boxes_only
    (window : Window) (options : PopupOptions) (e p : Ref)
    (page1 page2 : Page) :
  boundingClientRect (nodes page1 e) = boundingClientRect (nodes page2 e) ->
  boundingClientRect (nodes page1 p) = boundingClientRect (nodes page2 p) ->
  exists f1 f2,
    placement window options e p page1 = Return f1
    /\ placement window options e p page2 = Return f2
    /\ styles f1 = styles f2.
Proof.
  intros He Hp.
  destruct (placement_returns window options e p page1) as [f1 Hf1].
  destruct (placement_returns window options e p page2) as [f2 Hf2].
  exists f1, f2. split; [exact Hf1 |]. split; [exact Hf2 |].
  revert Hf1 Hf2. unfold placement, offsets. cbn [truthy_relativeTo].
  unfold scaledBoundingClientRect. rewrite He, Hp.
  intros [= <-] [= <-].
  match goal with
  | |- styles (?s ?f0) = styles (?s ?g0) =>
      assert (Hs : page_blind s) by auto 10 with popup;
      apply (Hs f0 g0); reflexivity
  end.
Qed.

Lemma placement_depends_on_boxes_only_witness :
  exists f1 f2,
    placement viewport_400 (options_of (Some after) None None None)
              0%nat 1%nat centering_page = Return f1
    /\ placement viewport_400 (options_of (Some after) None None None)
                 0%nat 1%nat styled_page = Return f2
    /\ styles f1 = styles f2.
Proof.
  apply (placement_depends_on_boxes_only viewport_400
           (options_of (Some after) None None None) 0%nat 1%nat
           centering_page styled_page); reflexivity.
Defined.

(** ** popup: the patch and the guard of style *)

Lemma set_prop_keys (x k : string) (v : Value) (o : Props) :
  In x (map fst (set_prop k v o)) -> x = k \/ In x (map fst o).
Proof.
  induction o as [| [k0 w] rest IH]; cbn [set_prop map fst In].
  - intros [H | []]. now left.
  - destruct (String.eqb k0 k) eqn:E; cbn [map fst In].
    + tauto.
    + intros [H | H]; [tauto |]. destruct (IH H); tauto.
Qed.

Lemma set_prop_solid (k s : string) (o : Props) :
  s <> ""%string -> solid_patch o -> solid_patch (set_prop k (VString s) o).
Proof.
  intros Hs [Hnd Hall]. split.
  - induction o as [| [k0 w] rest IH]; cbn [set_prop map fst].
    + constructor; [intros [] | constructor].
    + cbn [map fst] in Hnd. inversion Hnd as [| ? ? Hnot Hnd']. subst.
      inversion Hall as [| ? ? _ Hall']. subst.
      destruct (String.eqb k0 k) eqn:E; cbn [map fst].
      * exact Hnd.
      * constructor; [| now apply IH].
        intros Hin. apply set_prop_keys in Hin. destruct Hin as [-> | Hin].
        -- rewrite String.eqb_refl in E. discriminate.
        -- contradiction.
  - clear Hnd. induction Hall as [| [k0 w] rest Hw Hall IH]; cbn [set_prop].
    + constructor; [| constructor]. exists s. auto.
    + destruct (String.eqb k0 k).
      * constructor; [exists s; auto | exact Hall].
      * constructor; [exact Hw | exact IH].
Qed.

Lemma app_px_nonempty (s : string) : (s ++ "px" <> "")%string.
Proof. destruct s; discriminate. Qed.

Lemma px_nonempty (n : Z) : px n <> ""%string.
Proof. apply app_px_nonempty. Qed.

Lemma solid_assign (key v : string) :
  v <> ""%string -> keeps_solid (assign key v).
Proof. intros Hv f H. now apply set_prop_solid. Qed.

Lemma solid_set_tx (v : string) : keeps_solid (set_tx v).
Proof. intros f H. exact H. Qed.

Lemma solid_set_ty (v : string) : keeps_solid (set_ty v).
Proof. intros f H. exact H. Qed.

Lemma solid_add_class (e : Ref) (c : string) : keeps_solid (add_class e c).
Proof. intros f H. exact H. Qed.

Lemma solid_assign_transform : keeps_solid assign_transform.
Proof.
  intros f H. unfold assign_transform. apply solid_assign; [| exact H].
  discriminate.
Qed.

Lemma solid_seq (s1 s2 : Stmt) :
  keeps_solid s1 -> keeps_solid s2 -> keeps_solid (s1 ;; s2).
Proof. intros H1 H2 f H. unfold seq. now apply H2, H1. Qed.

#[local] Hint Resolve solid_assign solid_set_tx solid_set_ty solid_add_class
  solid_assign_transform solid_seq px_nonempty app_px_nonempty : popup.
#[local] Hint Extern 1 (_ <> ""%string) => discriminate : popup.

Lemma solid_horizontal window e l r w cx ew sw sp (d : DirectionX) :
  keeps_solid (horizontal window e l r w cx ew sw sp d).
Proof. destruct d; unfold horizontal; split_tests; auto 10 with popup. Qed.

Lemma solid_vertical window e t b h cy eh sw sp (d : DirectionY) :
  keeps_solid (vertical window e t b h cy eh sw sp d).
Proof. destruct d; unfold vertical; split_tests; auto 10 with popup. Qed.

#[local] Hint Resolve solid_horizontal solid_vertical : popup.

Lemma solid_passes_guard (o : Props) :
  solid_patch o ->
  Forall (fun entry => truthy (style_val (snd entry)) = true) o.
Proof.
  intros [_ Hall]. induction Hall as [| [k v] rest (s & Hv & Hs) _ IH].
  - constructor.
  - constructor; [| exact IH]. cbn [snd] in *. subst v. cbn.
    apply negb_true_iff, String.eqb_neq, Hs.
Qed.

Lemma filter_all {A : Type} (g : A -> bool) (l : list A) :
  Forall (fun a => g a = true) l -> filter g l = l.
Proof.
  induction 1 as [| a l Ha _ IH]; cbn [filter].
  - reflexivity.
  - now rewrite Ha, IH.
Qed.

(** X16: [popup] never builds an entry that [style] passes over: the keys
    of the patch are distinct and every value passes the guard of [style]
    (each is a non-empty string), so [style] makes an assignment for every
    entry of the patch, one for each key. *)
Theorem popup_patch_is_assigned_whole
    (window : Window) (options : PopupOptions) (page : Page) (e p : Ref) :
  exists f,
    placement window options e p page = Return f
    /\ NoDup (map fst (styles f))
    /\ Forall (fun entry => truthy (style_val (snd entry)) = true) (styles f)
    /\ assigned_entries (styles f) = styles f.
Proof.
  destruct (placement_returns window options e p page) as [f Hf].
  exists f. split; [exact Hf |].
  assert (Hsolid : solid_patch (styles f)).
  { revert Hf. unfold placement, offsets. cbn [truthy_relativeTo].
    intros [= <-].
    match goal with
    | |- solid_patch (styles (?s ?f0)) =>
        assert (Hs : keeps_solid s) by auto 10 with popup;
        apply Hs; split; constructor
    end. }
  pose proof (solid_passes_guard _ Hsolid) as Hguard.
  split; [exact (proj1 Hsolid) |]. split; [exact Hguard |].
  unfold assigned_entries. now apply filter_all.
Qed.

(** ** popup: directions, sides and markers *)



(** X18: for [xDir] before or after, the patch goes one of two ways: it
    sets [left] and [marginLeft] (the space in pixels) and the element gets
    the class [x-after], or it sets [right] and [marginRight] and the element
    gets [x-before]; the side, the margin and the marker always agree. *)
Theorem popup_horizontal_side_margin_marker
    (window : Window) (options : PopupOptions) (page : Page) (e p : Ref) :
  element options = Some e -> parent options = Some p ->
  or_default betweenX (xDir options) = before
  \/ or_default betweenX (xDir options) = after ->
  exists f page',
    placement window options e p page = Return f
    /\ popup window options page = Return page'
    /\ ((has_prop "left" (styles f) = true
         /\ has_prop "right" (styles f) = false
         /\ get_prop "marginLeft" (styles f)
            = Some (VString (px (or_default 8 (space options))))
         /\ get_prop "marginRight" (styles f) = None
         /\ In "x-after"%string (classList (nodes page' e)))
        \/ (has_prop "right" (styles f) = true
            /\ has_prop "left" (styles f) = false
            /\ get_prop "marginRight" (styles f)
               = Some (VString (px (or_default 8 (space options))))
            /\ get_prop "marginLeft" (styles f) = None
            /\ In "x-before"%string (classList (nodes page' e)))).
Proof.
  intros He Hp Hdir.
  destruct (placement_returns window options e p page) as [f Hf].
  pose proof (popup_present window options e p page f He Hp Hf) as Hpop.
  exists f. eexists. split; [exact Hf |]. split; [exact Hpop |].
  rewrite !style_classList.
  revert Hf. unfold placement, offsets. cbn [truthy_relativeTo].
  intros [= <-].
  destruct Hdir as [-> | ->];
    destruct (or_default below (yDir options));
    unfold horizontal, vertical; split_tests;
    first [ left; repeat split; [reflexivity .. | class_added]
          | right; repeat split; [reflexivity .. | class_added] ].
Qed.

Lemma popup_horizontal_side_margin_marker_witness :
  exists f page',
    placement viewport_400 (options_of (Some after) None None (Some 4))
              0%nat 1%nat centering_page = Return f
    /\ popup viewport_400 (options_of (Some after) None None (Some 4))
             centering_page = Return page'
    /\ ((has_prop "left" (styles f) = true
         /\ has_prop "right" (styles f) = false
         /\ get_prop "marginLeft" (styles f) = Some (VString (px 4))
         /\ get_prop "marginRight" (styles f) = None
         /\ In "x-after"%string (classList (nodes page' 0%nat)))
        \/ (has_prop "right" (styles f) = true
            /\ has_prop "left" (styles f) = false
            /\ get_prop "marginRight" (styles f) = Some (VString (px 4))
            /\ get_prop "marginLeft" (styles f) = None
            /\ In "x-before"%string (classList (nodes page' 0%nat)))).
Proof.
  apply (popup_horizontal_side_margin_marker viewport_400
           (options_of (Some after) None None (Some 4)) centering_page
           0%nat 1%nat); [reflexivity | reflexivity | right; reflexivity].
Defined.

(** X19: for [yDir] above or below, likewise: the patch sets [top] and
    [marginTop] and the element gets [y-below], or it sets [bottom] and
    [marginBottom] and the element gets [y-above]. *)
Theorem popup_vertical_side_margin_marker
    (window : Window) (options : PopupOptions) (page : Page) (e p : Ref) :
  element options = Some e -> parent options = Some p ->
  or_default below (yDir options) = above
  \/ or_default below (yDir options) = below ->
  exists f page',
    placement window options e p page = Return f
    /\ popup window options page = Return page'
    /\ ((has_prop "top" (styles f) = true
         /\ has_prop "bottom" (styles f) = false
         /\ get_prop "marginTop" (styles f)
            = Some (VString (px (or_default 8 (space options))))
         /\ get_prop "marginBottom" (styles f) = None
         /\ In "y-below"%string (classList (nodes page' e)))
        \/ (has_prop "bottom" (styles f) = true
            /\ has_prop "top" (styles f) = false
            /\ get_prop "marginBottom" (styles f)
               = Some (VString (px (or_default 8 (space options))))
            /\ get_prop "marginTop" (styles f) = None
            /\ In "y-above"%string (classList (nodes page' e)))).
Proof.
  intros He Hp Hdir.
  destruct (placement_returns window options e p page) as [f Hf].
  pose proof (popup_present window options e p page f He Hp Hf) as Hpop.
  exists f. eexists. split; [exact Hf |]. split; [exact Hpop |].
  rewrite !style_classList.
  revert Hf. unfold placement, offsets. cbn [truthy_relativeTo].
  intros [= <-].
  destruct Hdir as [-> | ->];
    destruct (or_default betweenX (xDir options));
    unfold horizontal, vertical; split_tests;
    first [ left; repeat split; [reflexivity .. | class_added]
          | right; repeat split; [reflexivity .. | class_added] ].
Qed.

Lemma popup_vertical_side_margin_marker_witness :
  exists f page',
    placement viewport_400 (options_of None None None None)
              0%nat 1%nat low_anchor_page = Return f
    /\ popup viewport_400 (options_of None None None None)
             low_anchor_page = Return page'
    /\ ((has_prop "top" (styles f) = true
         /\ has_prop "bottom" (styles f) = false
         /\ get_prop "marginTop" (styles f) = Some (VString (px 8))
         /\ get_prop "marginBottom" (styles f) = None
         /\ In "y-below"%string (classList (nodes page' 0%nat)))
        \/ (has_prop "bottom" (styles f) = true
            /\ has_prop "top" (styles f) = false
            /\ get_prop "marginBottom" (styles f) = Some (VString (px 8))
            /\ get_prop "marginTop" (styles f) = None
            /\ In "y-above"%string (classList (nodes page' 0%nat)))).
Proof.
  apply (popup_vertical_side_margin_marker viewport_400
           (options_of None None None None) low_anchor_page
           0%nat 1%nat); [reflexivity | reflexivity | right; reflexivity].
Defined.


(** ** restore and popTo *)

(** X21: [restore] with element and parent present first empties the inline
    style of the element, what [popup] wrote as well as what was there
    before, leaving the classes, the parents and the console alone, and then
    turns to the move.  With a delay it returns at once with one more
    pending callback, which will append the element to the parent.  Without
    a delay it appends the element to the parent at once, on the page with
    the style emptied: it returns the page that [appendChild] returns and
    throws what [appendChild] throws.  On a platform whose [appendChild]
    leaves the inline style and the classes of the moved element alone, the
    element then has no inline style and its classes, the markers of [popup]
    among them. *)
Theorem restore_clears_style_then_appends
    (appendChild : Ref -> Ref -> Page -> Completion Page)
    (options : PopupOptions) (doc : Document) (e p : Ref) :
  element options = Some e -> parent options = Some p ->
  let cleared := update_node e remove_style_attribute (doc_page doc) in
  (inlineStyle (nodes cleared e) = []
   /\ console cleared = console (doc_page doc)
   /\ (forall r, classList (nodes cleared r)
                 = classList (nodes (doc_page doc) r))
   /\ (forall r, parentElement (nodes cleared r)
                 = parentElement (nodes (doc_page doc) r)))
  /\ (forall d,
         restore appendChild options (Some d) doc
         = Return {| doc_page := cleared;
                     timers := timers doc ++ [(d, TaskAppend p e)] |})
  /\ (forall moved,
         appendChild p e cleared = Return moved ->
         restore appendChild options None doc
         = Return {| doc_page := moved; timers := timers doc |})
  /\ (forall err,
         appendChild p e cleared = Throw err ->
         restore appendChild options None doc = Throw err)
  /\ ((forall pg pg',
          appendChild p e pg = Return pg' ->
          inlineStyle (nodes pg' e) = inlineStyle (nodes pg e)
          /\ classList (nodes pg' e) = classList (nodes pg e)) ->
      forall doc',
        restore appendChild options None doc = Return doc' ->
        inlineStyle (nodes (doc_page doc') e) = []
        /\ classList (nodes (doc_page doc') e)
           = classList (nodes (doc_page doc) e)).
Proof.
  intros He Hp cleared.
  assert (Hcleared :
    inlineStyle (nodes cleared e) = []
    /\ console cleared = console (doc_page doc)
    /\ (forall r, classList (nodes cleared r)
                  = classList (nodes (doc_page doc) r))
    /\ (forall r, parentElement (nodes cleared r)
                  = parentElement (nodes (doc_page doc) r))).
  { subst cleared. cbn [update_node nodes console].
    rewrite Nat.eqb_refl.
    repeat split; intros r; destruct (Nat.eqb r e) eqn:E;
      try reflexivity; apply Nat.eqb_eq in E; now subst r. }
  split; [exact Hcleared |].
  unfold restore. rewrite He, Hp. fold cleared.
  split; [reflexivity |].
  split; [intros moved ->; reflexivity |].
  split; [intros err ->; reflexivity |].
  intros Happend doc'.
  destruct (appendChild p e cleared) as [moved | err] eqn:E; [| discriminate].
  intros [= <-]. cbn [doc_page].
  destruct (Happend _ _ E) as [Hs Hc].
  destruct Hcleared as (Hstyle & _ & Hclass & _).
  rewrite Hs, Hc, Hstyle, Hclass. split; reflexivity.
Qed.

Lemma restore_clears_style_then_appends_witness :
  (exists doc',
      restore plain_appendChild (options_of None None None None) (Some 50)
              {| doc_page := styled_page; timers := [] |} = Return doc'
      /\ inlineStyle (nodes (doc_page doc') 0%nat) = []
      /\ classList (nodes (doc_page doc') 0%nat) = ["open"%string]
      /\ parentElement (nodes (doc_page doc') 0%nat) = None
      /\ timers doc' = [(50, TaskAppend 1%nat 0%nat)])
  /\ (exists doc',
         restore plain_appendChild (options_of None None None None) None
                 {| doc_page := styled_page; timers := [] |} = Return doc'
         /\ inlineStyle (nodes (doc_page doc') 0%nat) = []
         /\ classList (nodes (doc_page doc') 0%nat) = ["open"%string]
         /\ parentElement (nodes (doc_page doc') 0%nat) = Some 1%nat
         /\ timers doc' = []).
Proof.
  destruct (restore_clears_style_then_appends plain_appendChild
              (options_of None None None None)
              {| doc_page := styled_page; timers := [] |} 0%nat 1%nat
              eq_refl eq_refl) as (_ & Hlater & Hnow & _ & _).
  split.
  - eexists. split; [apply (Hlater 50) |]. repeat split.
  - eexists. split; [apply Hnow; reflexivity |]. repeat split.
Defined.

(** X22: [popTo] looks for the element only before it moves it: when the
    element is there and the anchor is missing, the element is moved into
    the slot all the same, and only then does the placement give up with its
    warning; with a delay, the move is made and the placement is queued. *)
Theorem popTo_moves_before_checking_anchor
    (window : Window)
    (querySelector : string -> Page -> Completion (option Ref)) (body : Ref)
    (appendChild : Ref -> Ref -> Page -> Completion Page)
    (slot : string) (options : PopupOptions) (doc : Document) (e : Ref)
    (moved : Page) :
  element options = Some e -> parent options = None ->
  append_to_slot querySelector body appendChild slot e (doc_page doc)
  = Return moved ->
  popTo window querySelector body appendChild slot options None doc
  = Return {| doc_page := console_warn popup_warning moved;
              timers := timers doc |}
  /\ forall d,
       popTo window querySelector body appendChild slot options (Some d) doc
       = Return {| doc_page := moved;
                   timers := timers doc ++ [(d, TaskPopup options)] |}.
Proof.
  intros He Hp Hmove. unfold popTo. rewrite He, Hmove. split.
  - unfold popup. rewrite He, Hp. reflexivity.
  - intros d. reflexivity.
Qed.

Lemma popTo_moves_before_checking_anchor_witness :
  exists moved,
    parentElement (nodes moved 0%nat) = Some 7%nat
    /\ popTo viewport_400 no_match 7%nat plain_appendChild "#slot"
             {| element := Some 0%nat; parent := None; xDir := None;
                yDir := None; scale := None; swap := None; space := None |}
             None {| doc_page := centering_page; timers := [] |}
       = Return {| doc_page := console_warn popup_warning moved;
                   timers := [] |}.
Proof.
  eexists. split; [| apply (popTo_moves_before_checking_anchor viewport_400
           no_match 7%nat plain_appendChild "#slot"
           {| element := Some 0%nat; parent := None; xDir := None;
              yDir := None; scale := None; swap := None; space := None |}
           {| doc_page := centering_page; timers := [] |} 0%nat);
           reflexivity ].
  reflexivity.
Defined.
